(** * ileague-scrapper: identity resolution and composite scoring

    A shallow embedding of the core of the repository:
    - [combine_player_data.py] (class [PlayerDataCombiner]): loading the
      statistics table, the team-validated matching cascade and the merge;
    - [player_scraper.py] ([match_player_by_fullname]): the resolver without
      team validation;
    - [viz/profile_finder.py] (class [ProfileScorer]): weighted scoring,
      percentile and the per-player contribution breakdown.

    Conventions of the embedding.
    - Python [str] is [string]; the characters are taken to be ASCII, so that
      [str.upper], [str.strip] and the regular expression class [\s] are the
      ASCII ones.
    - Python [float] is idealised as an exact rational ([Qc]) in the module
      [Scorer]; a cell of a numeric DataFrame column is never NaN. What is
      stated there is either an identity between two runs of the same
      operations in the same order, or a fact of order that correctly
      rounded arithmetic keeps; an identity of field arithmetic that
      rounding breaks (normalised weights that sum to 1, scores unchanged
      when the weights are scaled) is not stated. The module [Binary64]
      runs the same lines on IEEE binary64 numbers and shows where the
      rounding is visible.
    - A Python [dict] whose iteration order is observed is an association
      list with unique keys; a [dict] only read by key is a [gmap]. *)

From Stdlib Require Import Ascii QArith Qcanon Field Lqa Sorted.
From Stdlib Require PrimFloat.
From stdpp Require Import base numbers list strings gmap.

(** ** Python values and strings *)

(** The values found in a roster entry, a CSV cell or an output row. *)
Inductive pyval :=
  | PStr (s : string)
  | PInt (z : Z)
  | PNone.

#[global] Instance pyval_eq_dec : EqDecision pyval.
Proof. solve_decision. Defined.

Module PyStr.

(** [str.isspace] on ASCII: tab, LF, VT, FF, CR, the separators
    0x1c-0x1f and the space. *)
Definition is_space (c : ascii) : bool :=
  let n := nat_of_ascii c in
  ((9 <=? n)%nat && (n <=? 13)%nat) || ((28 <=? n)%nat && (n <=? 32)%nat).

Definition upper_char (c : ascii) : ascii :=
  let n := nat_of_ascii c in
  if ((97 <=? n)%nat && (n <=? 122)%nat) then ascii_of_nat (n - 32) else c.

(** [s.upper()] *)
Fixpoint upper (s : string) : string :=
  match s with
  | EmptyString => EmptyString
  | String c s' => String (upper_char c) (upper s')
  end.

Fixpoint lstrip (s : string) : string :=
  match s with
  | EmptyString => EmptyString
  | String c s' => if is_space c then lstrip s' else s
  end.

Fixpoint rstrip (s : string) : string :=
  match s with
  | EmptyString => EmptyString
  | String c s' =>
      match rstrip s' with
      | EmptyString => if is_space c then EmptyString else String c EmptyString
      | r => String c r
      end
  end.

(** [s.strip()] *)
Definition strip (s : string) : string := rstrip (lstrip s).

(** [re.sub(r'\s+', ' ', s)]: every maximal run of white space becomes one
    space. [in_run] tells that the previous character was white space. *)
Fixpoint sub_ws (in_run : bool) (s : string) : string :=
  match s with
  | EmptyString => EmptyString
  | String c s' =>
      if is_space c
      then (if in_run then sub_ws true s' else String " " (sub_ws true s'))
      else String c (sub_ws false s')
  end.

(** [s.replace(old, new)] for a non-empty [old]: matches are taken from
    left to right and do not overlap. [skip] counts the characters of the
    current match still to be dropped. *)
Fixpoint replace_from (skip : nat) (old new s : string) : string :=
  match s with
  | EmptyString => EmptyString
  | String c s' =>
      match skip with
      | S k => replace_from k old new s'
      | O =>
          if String.prefix old s
          then new +:+ replace_from (String.length old - 1) old new s'
          else String c (replace_from 0 old new s')
      end
  end.

Definition replace (old new s : string) : string := replace_from 0 old new s.

(** [a in b] on strings: [a] occurs in [b] as a contiguous substring. *)
Fixpoint contains (a b : string) : bool :=
  String.prefix a b ||
  match b with
  | EmptyString => false
  | String _ b' => contains a b'
  end.

(** [s.lower()] *)
Definition lower_char (c : ascii) : ascii :=
  let n := nat_of_ascii c in
  if ((65 <=? n)%nat && (n <=? 90)%nat) then ascii_of_nat (n + 32) else c.

Fixpoint lower (s : string) : string :=
  match s with
  | EmptyString => EmptyString
  | String c s' => String (lower_char c) (lower s')
  end.

(** The class [\d] of a regular expression, on ASCII. *)
Definition is_digit (c : ascii) : bool :=
  let n := nat_of_ascii c in
  (48 <=? n)%nat && (n <=? 57)%nat.

(** The longest prefix of digits, and what follows it. *)
Fixpoint take_digits (s : string) : string :=
  match s with
  | EmptyString => EmptyString
  | String c s' => if is_digit c then String c (take_digits s') else EmptyString
  end.

Fixpoint drop_digits (s : string) : string :=
  match s with
  | EmptyString => EmptyString
  | String c s' => if is_digit c then drop_digits s' else s
  end.

End PyStr.

(** ** Ordered dictionaries

    A [dict] iterated in insertion order: an association list whose keys are
    unique as long as it is built with [dict_set]. *)

Module PyDict.

Section Ops.
Context {V : Type}.

(** [k in d] and [d[k]] *)
Fixpoint dict_get (k : string) (d : list (string * V)) : option V :=
  match d with
  | [] => None
  | (k', v) :: d' => if decide (k' = k) then Some v else dict_get k d'
  end.

(** [d[k] = v]: an existing key keeps its position, a new one goes last. *)
Fixpoint dict_set (k : string) (v : V) (d : list (string * V)) : list (string * V) :=
  match d with
  | [] => [(k, v)]
  | (k', v') :: d' =>
      if decide (k' = k) then (k, v) :: d' else (k', v') :: dict_set k v d'
  end.

(** [d.update(other)] *)
Definition dict_update (d other : list (string * V)) : list (string * V) :=
  foldl (fun acc kv => dict_set kv.1 kv.2 acc) d other.

Definition keys (d : list (string * V)) : list string := map fst d.
Definition values (d : list (string * V)) : list V := map snd d.
End Ops.

End PyDict.

(** ** combine_player_data.py *)

Module Combiner.

Import PyDict.

(** A row of [csv.DictReader]: column name to cell, the cell being text or
    [None] for a short row. *)
Abbreviation stats_row := (gmap string pyval).

(** [self.player_stats]: scraped name to row, in insertion order. *)
Abbreviation stats_dict := (list (string * stats_row)).

(** A roster entry after [load_teams_info]. The three fields the matching
    reads are strings, an absent key being read as [''] by [.get]. *)
Record player := {
  name : string;
  fullName : string;
  team_name : string;
  negara : pyval;
  usia : pyval;
  posisi : pyval;
  pictureUrl : pyval;
  penampilan : pyval
}.

Definition stat_columns : list string :=
  [ "Assist"; "Ball Recovery"; "Block"; "Block Cross"; "Clearance";
    "Create Chance"; "Cross"; "Dribble Success"; "Foul"; "Fouled";
    "Free Kick"; "Goal"; "Header Won"; "Intercept"; "Own Goal";
    "Passing"; "Penalty Goal"; "Saves"; "Shoot Off Target";
    "Shoot On Target"; "Tackle"; "Yellow Card" ].

Definition output_header : list string :=
  [ "Name"; "Player Name"; "Team"; "Country"; "Age"; "Position";
    "Picture Url"; "Appearances" ] ++ stat_columns.

(** [d.get(k, '')] *)
Definition get (d : stats_row) (k : string) : pyval :=
  default (PStr "") (d !! k).

(** Truth value of a Python object used as a condition. *)
Definition truthy (v : pyval) : bool :=
  match v with
  | PStr s => negb (bool_decide (s = ""))
  | PInt z => negb (bool_decide (z = 0%Z))
  | PNone => false
  end.

(** The loop of [load_player_stats] over the rows of the reader, from the
    dictionary built so far. [row['Player Name']] raises [KeyError] when
    the column is missing: the handler prints and the method returns
    [False], leaving the dictionary as it is at that point. *)
Fixpoint load_rows (rows : list stats_row) (d : stats_dict) : stats_dict * bool :=
  match rows with
  | [] => (d, true)
  | row :: rest =>
      match row !! "Player Name" with
      | None => (d, false)
      | Some player_name =>
          match player_name with
          | PStr s =>
              if truthy player_name then load_rows rest (dict_set s row d)
              else load_rows rest d
          | _ => load_rows rest d
          end
      end
  end.

Definition load_player_stats (rows : list stats_row) : stats_dict * bool :=
  load_rows rows [].

(** The input rows that carry the player name [s]. *)
Definition named (s : string) (r : stats_row) : Prop :=
  r !! "Player Name" = Some (PStr s).

#[global] Instance named_dec s r : Decision (named s r).
Proof. unfold named. apply _. Defined.

(** [clean_name]: strip, upper-case, collapse white space. *)
Definition clean_name (name : string) : string :=
  if decide (name = "") then ""
  else PyStr.sub_ws false (PyStr.upper (PyStr.strip name)).

Inductive match_type :=
  | exact_fullname_team
  | exact_name_team
  | clean_fullname_team
  | clean_name_team
  | no_match.

#[global] Instance match_type_eq_dec : EqDecision match_type.
Proof. solve_decision. Defined.

(** The tag string the source returns. *)
Definition tag (t : match_type) : string :=
  match t with
  | exact_fullname_team => "exact_fullname_team"
  | exact_name_team => "exact_name_team"
  | clean_fullname_team => "clean_fullname_team"
  | clean_name_team => "clean_name_team"
  | no_match => "no_match"
  end.

(** Strategy 3: the loop over [self.player_stats.items()]. *)
Fixpoint clean_scan (team clean_full_name clean_nm : string)
    (items : stats_dict) : option stats_row * match_type :=
  match items with
  | [] => (None, no_match)
  | (stats_player_name, stats) :: rest =>
      if decide (get stats "Team" = PStr team) then
        let clean_stats_name := clean_name stats_player_name in
        if decide (clean_stats_name = clean_full_name)
        then (Some stats, clean_fullname_team)
        else if decide (clean_stats_name = clean_nm)
        then (Some stats, clean_name_team)
        else clean_scan team clean_full_name clean_nm rest
      else clean_scan team clean_full_name clean_nm rest
  end.

(** The team test of strategies 1 and 2 on a looked-up row. *)
Definition team_checked (team : string) (o : option stats_row) : option stats_row :=
  match o with
  | Some stats => if decide (get stats "Team" = PStr team) then Some stats else None
  | None => None
  end.

Definition find_player_stats (player_stats : stats_dict) (p : player)
    : option stats_row * match_type :=
  match team_checked (team_name p) (dict_get (fullName p) player_stats) with
  | Some stats => (Some stats, exact_fullname_team)
  | None =>
      match team_checked (team_name p) (dict_get (name p) player_stats) with
      | Some stats => (Some stats, exact_name_team)
      | None =>
          clean_scan (team_name p) (clean_name (fullName p))
            (clean_name (name p)) player_stats
      end
  end.

(** The test of strategy 3 on one entry of the dictionary, for the team
    and the two cleaned names of the target, and the tag it yields. *)
Definition clean_hit (team clean_full_name clean_nm : string)
    (e : string * stats_row) : Prop :=
  get e.2 "Team" = PStr team ∧
  (clean_name e.1 = clean_full_name ∨ clean_name e.1 = clean_nm).

Definition clean_tag (clean_full_name : string) (e : string * stats_row)
    : match_type :=
  if decide (clean_name e.1 = clean_full_name)
  then clean_fullname_team else clean_name_team.

(** The candidates that pass strategy 3 for the player [p]. *)
Definition clean_candidate (p : player) (e : string * stats_row) : Prop :=
  clean_hit (team_name p) (clean_name (fullName p)) (clean_name (name p)) e.

(** The match was made by a dictionary look-up (strategies 1 and 2). *)
Definition exact_match (t : match_type) : Prop :=
  t = exact_fullname_team ∨ t = exact_name_team.

(** An output row and the values it holds. *)
Abbreviation out_row := (gmap string pyval).

(** [create_empty_stats] *)
Definition create_empty_stats : stats_row :=
  foldl (fun acc col => <[col := PInt 0]> acc) ∅ stat_columns.

(** The loop "Add statistics (default to 0 if missing)" over the columns. *)
Definition add_statistics (stats : stats_row) (row : out_row) : out_row :=
  foldl (fun acc col =>
           let value := get stats col in
           let value :=
             if decide (value = PStr "") then PInt 0
             else if decide (value = PNone) then PInt 0
             else value in
           <[col := value]> acc)
        row stat_columns.

Record summary := {
  matched_count : nat;
  team_validated_matches : nat;
  non_team_matches : nat;
  unmatched_players : list string
}.

Definition summary0 : summary :=
  {| matched_count := 0; team_validated_matches := 0;
     non_team_matches := 0; unmatched_players := [] |}.

(** [if stats and match_type != 'no_match']: the look-up found a
    non-empty record. *)
Definition is_matched (found : option stats_row * match_type) : bool :=
  match found.1 with
  | Some stats =>
      bool_decide (stats ≠ ∅) && negb (bool_decide (found.2 = no_match))
  | None => false
  end.

(** The record the statistics are read from: the one found, or the empty
    statistics of an unmatched player. *)
Definition stats_of (found : option stats_row * match_type) : stats_row :=
  if is_matched found then default ∅ found.1 else create_empty_stats.

(** The counters after one player. *)
Definition tally (p : player) (found : option stats_row * match_type)
    (sm : summary) : summary :=
  if is_matched found then
    if PyStr.contains "team" (tag found.2)
    then {| matched_count := S (matched_count sm);
            team_validated_matches := S (team_validated_matches sm);
            non_team_matches := non_team_matches sm;
            unmatched_players := unmatched_players sm |}
    else {| matched_count := S (matched_count sm);
            team_validated_matches := team_validated_matches sm;
            non_team_matches := S (non_team_matches sm);
            unmatched_players := unmatched_players sm |}
  else {| matched_count := matched_count sm;
          team_validated_matches := team_validated_matches sm;
          non_team_matches := non_team_matches sm;
          unmatched_players :=
            unmatched_players sm ++
            [name p +:+ " (" +:+ fullName p +:+ ") from " +:+ team_name p] |}.

(** The row of one player: "Create combined row", then the statistics. *)
Definition combined_row (p : player) (stats : stats_row) : out_row :=
  let row : out_row :=
    <["Appearances" := penampilan p]>
    (<["Picture Url" := pictureUrl p]>
    (<["Position" := posisi p]>
    (<["Age" := usia p]>
    (<["Country" := negara p]>
    (<["Team" := PStr (team_name p)]>
    (<["Player Name" := PStr (fullName p)]>
    (<["Name" := PStr (name p)]> ∅))))))) in
  add_statistics stats row.

(** One iteration of the loop of [combine_data]. *)
Definition combine_player (player_stats : stats_dict) (p : player)
    (acc : list out_row * summary) : list out_row * summary :=
  let found := find_player_stats player_stats p in
  (acc.1 ++ [combined_row p (stats_of found)], tally p found acc.2).

(** A cell the merge replaces by 0: the empty string or [None]. *)
Definition is_blank (v : pyval) : Prop := v = PStr "" ∨ v = PNone.

(** A numeric value, as opposed to text or [None]. *)
Definition is_numeric (v : pyval) : Prop := ∃ z, v = PInt z.

(** [combine_data]: [None] is the [False] returned when either input is
    empty ("Data not loaded properly"). *)
Definition combine_data (all_players : list player) (player_stats : stats_dict)
    : option (list out_row * summary) :=
  match all_players, player_stats with
  | [], _ | _, [] => None
  | _, _ =>
      Some (foldl (fun acc p => combine_player player_stats p acc)
                  ([], summary0) all_players)
  end.

(** A team of [teams_info.json]: its name ([team['name']]) and its players. *)
Record team := {
  team_label : string;
  players : list player
}.

(** [player_with_team['team_name'] = team['name']]; the ['team_id'] written
    next to it is not read by the merge. *)
Definition with_team (t : team) (p : player) : player :=
  {| name := name p; fullName := fullName p; team_name := team_label t;
     negara := negara p; usia := usia p; posisi := posisi p;
     pictureUrl := pictureUrl p; penampilan := penampilan p |}.

(** The loop of [load_teams_info], lines 48-54, over the teams of the file. *)
Definition load_teams_info (teams : list team) : list player :=
  flat_map (fun t => map (with_team t) (players t)) teams.

(** [csv.DictWriter] with its defaults: a key of the row that is not a
    field name raises [ValueError] ([None] here), a field the row lacks is
    written as ['']. *)
Definition dict_to_list (fieldnames : list string) (row : out_row)
    : option (list pyval) :=
  if decide (dom row ⊆ list_to_set fieldnames)
  then Some (map (fun k => default (PStr "") (row !! k)) fieldnames)
  else None.

(** [export_to_csv]: the lines written after the header when the method
    returns [True]; [None] when a row is refused and the handler returns
    [False]. Opening and writing the file are taken to succeed. *)
Definition export_to_csv (combined_data : list out_row) : option (list (list pyval)) :=
  mapM (dict_to_list output_header) combined_data.

(** [run]: the two loads, the merge and the export. An input file is
    [None] when it cannot be opened or parsed. The result is the lines
    exported when [run] returns [True], and [None] when it returns [False]. *)
Definition run (teams_file : option (list team)) (stats_file : option (list stats_row))
    : option (list (list pyval)) :=
  match teams_file with
  | None => None
  | Some teams =>
      let all_players := load_teams_info teams in
      match stats_file with
      | None => None
      | Some rows =>
          let loaded := load_player_stats rows in
          if loaded.2 then
            match combine_data all_players loaded.1 with
            | Some (combined_data, _) =>
                match combined_data with
                | [] => None
                | _ => export_to_csv combined_data
                end
            | None => None
            end
          else None
      end
  end.

End Combiner.

(** ** player_scraper.py: the resolver without team validation *)

Module Scraper.

Import Combiner.

(** [clean_text] *)
Definition clean_text (text : string) : string :=
  if decide (text = "") then ""
  else
    let cleaned := PyStr.sub_ws false (PyStr.strip text) in
    PyStr.replace "&amp;" "&" (PyStr.replace "&nbsp;" " " cleaned).

(** [a in b or b in a] *)
Definition either_contains (a b : string) : bool :=
  PyStr.contains a b || PyStr.contains b a.

Definition match_player_by_fullname (scraped_name : string)
    (all_players : list player) : option player :=
  let scraped_name_clean := PyStr.upper (clean_text scraped_name) in
  match find (fun p => bool_decide (PyStr.upper (fullName p) = scraped_name_clean))
             all_players with
  | Some p => Some p
  | None =>
  match find (fun p => bool_decide (PyStr.upper (name p) = scraped_name_clean))
             all_players with
  | Some p => Some p
  | None =>
  match find (fun p => either_contains scraped_name_clean (PyStr.upper (fullName p)))
             all_players with
  | Some p => Some p
  | None =>
      find (fun p => either_contains scraped_name_clean (PyStr.upper (name p)))
           all_players
  end end end.

(** The match of [\d+(?:\.\d+)?] at a position that holds a digit: the
    digits, then a point and digits when at least one digit follows the
    point. *)
Definition number_at (s : string) : string :=
  let int_part := PyStr.take_digits s in
  match PyStr.drop_digits s with
  | String "." rest =>
      match PyStr.take_digits rest with
      | EmptyString => int_part
      | frac => int_part +:+ String "." frac
      end
  | _ => int_part
  end.

(** [re.findall(r'\d+(?:\.\d+)?', text)[0]], if any: the match at the first
    digit of the text. *)
Fixpoint first_number (s : string) : option string :=
  match s with
  | EmptyString => None
  | String c s' => if PyStr.is_digit c then Some (number_at s) else first_number s'
  end.

(** [extract_number] *)
Definition extract_number (text : string) : option string :=
  if decide (text = "") then None else first_number text.

Definition team_indicators : list string :=
  [ "fc"; "united"; "club"; "persib"; "persija"; "arema"; "bali"; "psm" ].

(** [looks_like_team_name] *)
Definition looks_like_team_name (text : string) : bool :=
  existsb (fun indicator => PyStr.contains indicator (PyStr.lower text)) team_indicators.

End Scraper.

(** ** viz/profile_finder.py: ProfileScorer *)

Module Scorer.

Import PyDict.

(** A weight dictionary [Dict[str, float]], in insertion order. *)
Abbreviation weight_dict := (list (string * Qc)).

(** A row of the player DataFrame: the text cells and the numeric cells,
    by column name. *)
Record row := {
  texts : gmap string string;
  nums : gmap string Qc
}.

(** The DataFrame: its column labels and its rows. A row is addressed by
    its position, which stands for its index label. *)
Record frame := {
  columns : list string;
  rows : list row
}.

(** [df[metric]] for a numeric column; the metrics that carry a weight
    are taken to be numeric columns. *)
Definition col (df : frame) (metric : string) : list Qc :=
  map (fun r => default 0%Qc (nums r !! metric)) (rows df).

Definition negative_metrics : list string :=
  [ "Own Goal"; "Yellow Card"; "Foul"; "Shoot Off Target" ].

Definition Qc_min (a b : Qc) : Qc := if decide (a ≤ b)%Qc then a else b.
Definition Qc_max (a b : Qc) : Qc := if decide (a ≤ b)%Qc then b else a.

(** [Series.min()] and [Series.max()]; [None] stands for the NaN of an
    empty series. *)
Definition series_min (l : list Qc) : option Qc :=
  match l with
  | [] => None
  | x :: l' => Some (foldl Qc_min x l')
  end.

Definition series_max (l : list Qc) : option Qc :=
  match l with
  | [] => None
  | x :: l' => Some (foldl Qc_max x l')
  end.

Definition hundred : Qc := Q2Qc 100.
Definition fifty : Qc := Q2Qc 50.

(** The value the cell [v] of one player is scaled to, lines 157-163 of
    [get_metric_contributions], for the column extremes [lo] and [hi]. *)
Definition normalized_value (neg : bool) (lo hi v : Qc) : Qc :=
  if decide (hi = lo) then fifty
  else if neg then (hundred - ((v - lo) / (hi - lo) * hundred))%Qc
  else ((v - lo) / (hi - lo) * hundred)%Qc.

(** The min-max normalisation of a column, lines 97-109 of
    [calculate_category_score]. NaN never equals NaN, so an empty column
    takes the second branch and stays empty. *)
Definition normalize (col_values : list Qc) (neg : bool) : list Qc :=
  match series_min col_values, series_max col_values with
  | Some col_min, Some col_max =>
      if decide (col_max = col_min)
      then map (fun _ => fifty) col_values
      else if neg
      then map (fun v => (hundred - ((v - col_min) / (col_max - col_min) * hundred))%Qc)
               col_values
      else map (fun v => ((v - col_min) / (col_max - col_min) * hundred)%Qc)
               col_values
  | _, _ => []
  end.

Definition is_negative (metric : string) : bool :=
  bool_decide (metric ∈ negative_metrics).

(** [sum(d.values())] *)
Definition sum_values (d : weight_dict) : Qc :=
  foldl Qcplus 0%Qc (values d).

(** Lines 72-78: preset and additional weights, filtered to the columns
    of the frame. *)
Definition available_weights (df : frame) (weights additional_metrics : weight_dict)
    : weight_dict :=
  filter (fun kv => kv.1 ∈ columns df) (dict_update weights additional_metrics).

(** Lines 85-89. *)
Definition normalize_weights (available : weight_dict) : weight_dict :=
  let total_weight := sum_values available in
  if decide (0 < total_weight)%Qc
  then map (fun kv => (kv.1, (kv.2 / total_weight)%Qc)) available
  else available.

(** [a += b * weight] on series of the same index. *)
Definition add_weighted (acc vals : list Qc) (weight : Qc) : list Qc :=
  zip_with (fun a v => (a + v * weight)%Qc) acc vals.

(** Lines 93-112: the loop accumulating [weighted_scores]. *)
Definition weighted_scores (df : frame) (normalized_weights : weight_dict) : list Qc :=
  foldl (fun acc kv =>
           if bool_decide (kv.1 ∈ columns df)
           then add_weighted acc (normalize (col df kv.1) (is_negative kv.1)) kv.2
           else acc)
        (map (fun _ => 0%Qc) (rows df)) normalized_weights.

(** [Series.rank(pct=True)] of pandas, with its default [method='average']:
    the values are ranked in ascending order from 1, equal values share the
    mean of the positions their group occupies, and the rank is divided by
    the number of values. *)
Definition count_lt (x : Qc) (l : list Qc) : nat :=
  length (filter (fun y => (y < x)%Qc) l).

Definition count_eq (x : Qc) (l : list Qc) : nat :=
  length (filter (fun y => y = x) l).

Definition Qc_of_nat (n : nat) : Qc := Q2Qc (inject_Z (Z.of_nat n)).

(** The positions of the group of [x] in the ascending order. *)
Definition group_positions (x : Qc) (l : list Qc) : list nat :=
  seq (S (count_lt x l)) (count_eq x l).

Definition average_rank (x : Qc) (l : list Qc) : Qc :=
  (foldr Qcplus 0%Qc (map Qc_of_nat (group_positions x l))
   / Qc_of_nat (count_eq x l))%Qc.

Definition rank_pct (l : list Qc) : list Qc :=
  map (fun x => (average_rank x l / Qc_of_nat (length l))%Qc) l.

(** A row of [result_df] before the sort: the player's row with the score
    and the percentile columns. *)
Record scored_row := {
  base : row;
  score : Qc;
  percentile : Qc
}.

(** Lines 114-120. *)
Definition scored_rows (df : frame) (normalized_weights : weight_dict)
    : list scored_row :=
  let scores := weighted_scores df normalized_weights in
  let pcts := map (fun p => (p * hundred)%Qc) (rank_pct scores) in
  zip_with (fun r sp => {| base := r; score := sp.1; percentile := sp.2 |})
           (rows df) (zip scores pcts).

(** [sort_values(score_column, ascending=False)]: each row, from the last
    one, is inserted before the first row whose score is not greater, so
    that rows with equal scores stay in the order of the frame. pandas
    returns them so whenever its sorting routine keeps equal keys in place,
    which the default routine does on a short frame and does not promise
    on a long one; no theorem below depends on the order of rows with
    equal scores. *)
Fixpoint insert_desc (r : scored_row) (l : list scored_row) : list scored_row :=
  match l with
  | [] => [r]
  | r' :: l' =>
      if decide (score r' ≤ score r)%Qc then r :: l
      else r' :: insert_desc r l'
  end.

Definition sort_values (l : list scored_row) : list scored_row :=
  foldr insert_desc [] l.

(** [result_df['Rank'] = range(1, len(result_df) + 1)] *)
Definition with_rank (l : list scored_row) : list (nat * scored_row) :=
  zip (seq 1 (length l)) l.

(** The columns the final selection reads besides the computed ones. *)
Definition selected_columns : list string :=
  [ "Player Name"; "Team"; "Position"; "Age"; "Appearances" ].

(** What a call returns or raises. *)
Inductive outcome :=
  | EmptyFrame
  | Scored (result_df : list (nat * scored_row)) (normalized_weights : weight_dict)
  | KeyError.

(** The effects of a call: the [st.warning] messages and the outcome. *)
Record call := {
  warnings : list string;
  ret : outcome
}.

Definition no_valid_metrics (category : string) : string :=
  "No valid metrics found for " +:+ category.

Definition calculate_category_score (df : frame) (category : string)
    (weights additional_metrics : weight_dict) : call :=
  match rows df with
  | [] => {| warnings := []; ret := EmptyFrame |}
  | _ =>
      let available := available_weights df weights additional_metrics in
      match available with
      | [] => {| warnings := [no_valid_metrics category]; ret := EmptyFrame |}
      | _ =>
          let normalized_weights := normalize_weights available in
          let result_df := scored_rows df normalized_weights in
          let result_df := with_rank (sort_values result_df) in
          if bool_decide (selected_columns ⊆ columns df)
          then {| warnings := []; ret := Scored result_df normalized_weights |}
          else {| warnings := []; ret := KeyError |}
      end
  end.

(** An entry of the dictionary [get_metric_contributions] returns. *)
Record contribution := {
  raw_value : Qc;
  normalized_score : Qc;
  weight : Qc;
  weighted_contribution : Qc
}.

(** The body of the loop of [get_metric_contributions] for one metric and
    the row [r] of the player: [None] when the metric is skipped. *)
Definition metric_contribution (df : frame) (r : row) (kv : string * Qc)
    : option (string * contribution) :=
  if bool_decide (kv.1 ∈ columns df) then
    let col_values := col df kv.1 in
    let player_value := default 0%Qc (nums r !! kv.1) in
    match series_min col_values, series_max col_values with
    | Some col_min, Some col_max =>
        let normalized_value :=
          normalized_value (is_negative kv.1) col_min col_max player_value in
        Some (kv.1,
              {| raw_value := player_value;
                 normalized_score := normalized_value;
                 weight := kv.2;
                 weighted_contribution := (normalized_value * kv.2)%Qc |})
    | _, _ => None
    end
  else None.

(** [get_metric_contributions]; [None] is the [KeyError] of
    [df.loc[player_idx, metric]] for an index that is not in the frame,
    raised in the first iteration of the loop. *)
Definition get_metric_contributions (df : frame) (player_idx : nat)
    (category : string) (weights additional_metrics : weight_dict)
    : option (list (string * contribution)) :=
  let normalized_weights :=
    normalize_weights (available_weights df weights additional_metrics) in
  match normalized_weights with
  | [] => Some []
  | _ =>
      match rows df !! player_idx with
      | None => None
      | Some r => Some (omap (metric_contribution df r) normalized_weights)
      end
  end.

(** [get_available_metrics] *)
Definition info_columns : list string :=
  [ "Name"; "Player Name"; "Team"; "Country"; "Age"; "Position"; "Picture Url" ].

Definition get_available_metrics (df : frame) : list string :=
  filter (fun col => col ∉ info_columns) (columns df).

(** [get_percentile_color] *)
Definition get_percentile_color (percentile_rank : Qc) : string :=
  if decide (Qc_of_Z 81 ≤ percentile_rank)%Qc then "#1a9641"
  else if decide (Qc_of_Z 61 ≤ percentile_rank)%Qc then "#73c378"
  else if decide (Qc_of_Z 41 ≤ percentile_rank)%Qc then "#f9d057"
  else if decide (Qc_of_Z 21 ≤ percentile_rank)%Qc then "#fc8d59"
  else "#d73027".

(** Lines 525-528 of [show_profile_finder]: the percentile of a raw value
    within the column of its metric, shown in the breakdown table. *)
Definition player_percentile (metric : string) (metric_values : list Qc)
    (raw_value : Qc) : Qc :=
  let player_percentile :=
    (Qc_of_nat (count_lt raw_value metric_values)
     / Qc_of_nat (length metric_values) * hundred)%Qc in
  if is_negative metric then (hundred - player_percentile)%Qc
  else player_percentile.

End Scorer.

(** ** viz/profile_finder.py on binary64 numbers

    The weighting and scoring lines of [calculate_category_score] once
    more, on the numbers a Python [float] is: every operation is the
    correctly rounded one of IEEE binary64. *)

Module Binary64.

Import PyDict.
Import PrimFloat.

#[local] Set Warnings "-inexact-float".
Local Open Scope float_scope.

Abbreviation weight_dict := (list (string * float)).

(** The numeric cells of a row, by column name. *)
Record frame := {
  columns : list string;
  rows : list (gmap string float)
}.

Definition col (df : frame) (metric : string) : list float :=
  map (fun r => default 0 (r !! metric)) (rows df).

Definition float_min (a b : float) : float := if a <=? b then a else b.
Definition float_max (a b : float) : float := if a <=? b then b else a.

Definition series_min (l : list float) : option float :=
  match l with
  | [] => None
  | x :: l' => Some (foldl float_min x l')
  end.

Definition series_max (l : list float) : option float :=
  match l with
  | [] => None
  | x :: l' => Some (foldl float_max x l')
  end.

(** Lines 97-109. *)
Definition normalize (col_values : list float) (neg : bool) : list float :=
  match series_min col_values, series_max col_values with
  | Some col_min, Some col_max =>
      if col_max =? col_min
      then map (fun _ => 50) col_values
      else if neg
      then map (fun v => 100 - ((v - col_min) / (col_max - col_min) * 100))
               col_values
      else map (fun v => (v - col_min) / (col_max - col_min) * 100)
               col_values
  | _, _ => []
  end.

(** [sum(d.values())]: the additions from the left, from 0. *)
Definition sum_values (d : weight_dict) : float :=
  foldl add 0 (values d).

(** Lines 85-89. *)
Definition normalize_weights (available : weight_dict) : weight_dict :=
  let total_weight := sum_values available in
  if 0 <? total_weight
  then map (fun kv => (kv.1, kv.2 / total_weight)) available
  else available.

(** [a += b * weight] on series of the same index. *)
Definition add_weighted (acc vals : list float) (weight : float) : list float :=
  zip_with (fun a v => a + v * weight) acc vals.

(** Lines 93-112. *)
Definition weighted_scores (df : frame) (normalized_weights : weight_dict)
    : list float :=
  foldl (fun acc kv =>
           if bool_decide (kv.1 ∈ columns df)
           then add_weighted acc
                  (normalize (col df kv.1) (Scorer.is_negative kv.1)) kv.2
           else acc)
        (map (fun _ => 0) (rows df)) normalized_weights.

End Binary64.

(** ** Example inputs *)

Module Examples.

Import Combiner.

Definition roster_entry (nm full team : string) : player :=
  {| name := nm; fullName := full; team_name := team;
     negara := PStr "Indonesia"; usia := PInt 24; posisi := PStr "FW";
     pictureUrl := PStr ""; penampilan := PInt 10 |}.

(** Three input rows, two of them under the same player name. *)
Definition c9_rows : list (gmap string pyval) :=
  [ {[ "Player Name" := PStr "A. Putra"; "Team" := PStr "FC ALPHA"; "Goal" := PStr "3" ]};
    {[ "Player Name" := PStr "B. Sakti"; "Team" := PStr "FC ALPHA"; "Goal" := PStr "1" ]};
    {[ "Player Name" := PStr "A. Putra"; "Team" := PStr "FC BETA"; "Goal" := PStr "7" ]} ].

(** The pool and the target of the team-mismatch example. *)
Definition john_alpha : gmap string pyval :=
  {[ "Player Name" := PStr "John   Smith"; "Team" := PStr "FC ALPHA" ]}.
Definition john_beta : gmap string pyval :=
  {[ "Player Name" := PStr "JOHN SMITH"; "Team" := PStr "FC BETA" ]}.
Definition john_pool : list (string * gmap string pyval) :=
  [ ("John   Smith", john_alpha); ("JOHN SMITH", john_beta) ].
Definition john_target (nm : string) : player :=
  roster_entry nm "JOHN SMITH" "FC ALPHA".

(** Two candidates of the same team, one matching the cleaned full name
    and one the cleaned display name of the target, in both orders. *)
Definition smith_full : gmap string pyval :=
  {[ "Player Name" := PStr "john smith"; "Team" := PStr "FC ALPHA"; "Goal" := PStr "4" ]}.
Definition smith_short : gmap string pyval :=
  {[ "Player Name" := PStr "j smith"; "Team" := PStr "FC ALPHA"; "Goal" := PStr "9" ]}.
Definition smith_pool : list (string * gmap string pyval) :=
  [ ("john smith", smith_full); ("j smith", smith_short) ].
Definition smith_pool_swapped : list (string * gmap string pyval) :=
  [ ("j smith", smith_short); ("john smith", smith_full) ].
Definition smith_target : player := roster_entry "J SMITH" "JOHN SMITH" "FC ALPHA".

(** A roster of two players and a pool that matches the first one. *)
Definition putra_row : gmap string pyval :=
  {[ "Player Name" := PStr "A. Putra"; "Team" := PStr "FC ALPHA";
     "Goal" := PStr "5"; "Assist" := PStr "n/a"; "Tackle" := PStr "" ]}.
Definition putra_pool : list (string * gmap string pyval) :=
  [ ("A. Putra", putra_row) ].
Definition putra_roster : list player :=
  [ roster_entry "Putra" "A. Putra" "FC ALPHA";
    roster_entry "Sakti" "B. Sakti" "FC ALPHA" ].

(** A pool for the resolver without team validation: a player whose full
    name contains "JOHN", then a player without a full name. *)
Definition smith_player : player := roster_entry "Smith" "John Smith" "FC ALPHA".
Definition blank_player : player := roster_entry "Sakti" "" "FC ALPHA".
Definition scraper_roster : list player := [ smith_player; blank_player ].

(** A player table with the columns the scorer selects and two metrics. *)
Definition score_columns : list string :=
  [ "Player Name"; "Team"; "Position"; "Age"; "Appearances"; "Goal"; "Assist" ].
Definition score_row (nm : string) (goal assist : Z) : Scorer.row :=
  {| Scorer.texts := {[ "Player Name" := nm; "Team" := "FC ALPHA"; "Position" := "FW" ]};
     Scorer.nums := {[ "Age" := Qc_of_Z 24; "Appearances" := Qc_of_Z 10;
                       "Goal" := Qc_of_Z goal; "Assist" := Qc_of_Z assist ]} |}.
Definition three_players : Scorer.frame :=
  {| Scorer.columns := score_columns;
     Scorer.rows := [ score_row "a" 1 0; score_row "b" 2 0; score_row "c" 3 0 ] |}.
Definition goal_only : list (string * Qc) := [ ("Goal", Qc_of_Z 1) ].
Definition doubled_weights : list (string * Qc) :=
  [ ("Goal", Qc_of_Z 2); ("Assist", Qc_of_Z 2) ].
Definition foreign_weights : list (string * Qc) :=
  [ ("Rebound", Qc_of_Z 1); ("Steal", Qc_of_Z 2) ].

(** The same roster as a teams file of two teams, the second without
    players, and a statistics file of two rows. *)
Definition putra_teams : list team :=
  [ {| team_label := "FC ALPHA"; players := putra_roster |};
    {| team_label := "FC BETA"; players := [] |} ].
Definition putra_file : list (gmap string pyval) :=
  [ putra_row;
    {[ "Player Name" := PStr ""; "Team" := PStr "FC ALPHA" ]} ].
(** A statistics file whose second row has no player name column. *)
Definition broken_file : list (gmap string pyval) :=
  [ putra_row; {[ "Team" := PStr "FC ALPHA" ]}; john_alpha ].

Definition equal_weights : list (string * Qc) :=
  [ ("Goal", Qc_of_Z 1); ("Assist", Qc_of_Z 1) ].

(** A preset, and additional weights that repeat one of its metrics. *)
Definition preset_weights : list (string * Qc) :=
  [ ("Goal", Qc_of_Z 3); ("Rebound", Qc_of_Z 1); ("Assist", Qc_of_Z 2) ].
Definition additional_weights : list (string * Qc) :=
  [ ("Age", Qc_of_Z 1); ("Goal", Qc_of_Z 5) ].

End Examples.

Module Binary64Examples.

Import PrimFloat.
Local Open Scope float_scope.

(** Three players on binary64 cells, and weights a slider of step 0.05
    can give. *)
Definition binary64_row (goal assist tackle : float) : gmap string float :=
  {[ "Goal" := goal; "Assist" := assist; "Tackle" := tackle ]}.
Definition binary64_players : Binary64.frame :=
  {| Binary64.columns := [ "Goal"; "Assist"; "Tackle" ];
     Binary64.rows := [ binary64_row 1 1 3; binary64_row 2 2 2; binary64_row 3 3 1 ] |}.
Definition slider_weights (metric1 metric2 : string) (w1 w2 : float)
    : list (string * float) :=
  [ (metric1, w1); (metric2, w2) ].

End Binary64Examples.

(** * Properties *)

(** ** Ordered dictionaries *)

Section DictFacts.
Import PyDict.
Context {V : Type}.
Implicit Types (d : list (string * V)) (k : string) (v : V).

Lemma dict_get_set_eq k v d : dict_get k (dict_set k v d) = Some v.
Proof.
  induction d as [|[k' v'] d IH]; simpl.
  - by rewrite decide_True.
  - destruct (decide (k' = k)) as [->|Hne]; simpl.
    + by rewrite decide_True.
    + by rewrite decide_False.
Qed.

Lemma dict_get_set_ne k k' v d :
  k ≠ k' → dict_get k' (dict_set k v d) = dict_get k' d.
Proof.
  intros Hne. induction d as [|[k0 v0] d IH]; simpl.
  - by rewrite decide_False.
  - destruct (decide (k0 = k)) as [->|Hne0]; simpl.
    + by rewrite !decide_False.
    + destruct (decide (k0 = k')); [done | apply IH].
Qed.

Lemma keys_dict_set k v d :
  keys (dict_set k v d) = if decide (k ∈ keys d) then keys d else keys d ++ [k].
Proof.
  unfold keys. induction d as [|[k' v'] d IH].
  - destruct (decide (k ∈ map fst [])) as [Hin|]; [|done].
    by apply elem_of_nil in Hin.
  - cbn [dict_set]. destruct (decide (k' = k)) as [->|Hne].
    + destruct (decide (k ∈ map fst ((k, v') :: d))) as [|Hnin]; [done |].
      exfalso. apply Hnin. left.
    + cbn [map fst]. rewrite IH.
      destruct (decide (k ∈ map fst d)) as [Hin|Hnin];
        destruct (decide (k ∈ k' :: map fst d)) as [Hin'|Hnin']; try done.
      * exfalso. apply Hnin'. by right.
      * exfalso. apply elem_of_cons in Hin' as [?|?]; congruence.
Qed.

Lemma NoDup_keys_dict_set k v d : NoDup (keys d) → NoDup (keys (dict_set k v d)).
Proof.
  intros Hnd. rewrite keys_dict_set. case_decide; [done |].
  apply NoDup_app. split_and!; [done | | apply NoDup_singleton].
  intros x Hx ->%list_elem_of_singleton. contradiction.
Qed.

Lemma elem_of_keys_dict_set k k' v d :
  k' ∈ keys (dict_set k v d) ↔ k' = k ∨ k' ∈ keys d.
Proof.
  rewrite keys_dict_set. case_decide.
  - split; [by right | intros [->|?]; done].
  - rewrite elem_of_app, list_elem_of_singleton. tauto.
Qed.

Lemma dict_get_Some_elem k v d : dict_get k d = Some v → (k, v) ∈ d.
Proof.
  induction d as [|[k' v'] d IH]; simpl; [done |].
  case_decide as Hk.
  - intros [= ->]. subst. left.
  - intros ?. right. by apply IH.
Qed.

Lemma dict_get_None k d : dict_get k d = None ↔ k ∉ keys d.
Proof.
  unfold keys. induction d as [|[k' v'] d IH]; simpl.
  - split; [intros _ ?%elem_of_nil; done | done].
  - case_decide as Hk.
    + subst. split; [done | intros []; left].
    + rewrite IH, not_elem_of_cons. naive_solver.
Qed.

Lemma elem_dict_get k v d : NoDup (keys d) → (k, v) ∈ d → dict_get k d = Some v.
Proof.
  unfold keys. induction d as [|[k' v'] d IH]; simpl.
  - by intros _ ?%elem_of_nil.
  - intros [Hnin Hnd]%NoDup_cons [Heq|Hin]%elem_of_cons.
    + injection Heq as -> ->. by rewrite decide_True.
    + rewrite decide_False; [by apply IH |].
      intros ->. apply Hnin. apply list_elem_of_fmap. by exists (k, v).
Qed.

(** Looking a key up does not depend on the order of the entries. *)
Lemma dict_get_perm k d1 d2 :
  NoDup (keys d1) → d1 ≡ₚ d2 → dict_get k d1 = dict_get k d2.
Proof.
  intros Hnd Hp.
  assert (NoDup (keys d2)) as Hnd2.
  { unfold keys in *. by rewrite <-Hp. }
  destruct (dict_get k d1) as [v|] eqn:H1.
  - symmetry. apply elem_dict_get; [done |].
    rewrite <-Hp. by apply dict_get_Some_elem.
  - symmetry. apply dict_get_None. apply dict_get_None in H1.
    unfold keys in *. by rewrite <-Hp.
Qed.
End DictFacts.

(** ** Loading the statistics table *)

Section LoadFacts.
Import PyDict Combiner.

Lemma load_rows_NoDup rows d :
  NoDup (keys d) → NoDup (keys (load_rows rows d).1).
Proof.
  revert d. induction rows as [|row rest IH]; intros d Hnd; simpl; [done |].
  destruct (row !! "Player Name") as [[s|z|]|]; simpl; auto.
  destruct (bool_decide (s = "")); simpl; auto.
  apply IH. by apply NoDup_keys_dict_set.
Qed.

Lemma load_rows_keys_nonempty rows d :
  "" ∉ keys d → "" ∉ keys (load_rows rows d).1.
Proof.
  revert d. induction rows as [|row rest IH]; intros d Hd; simpl; [done |].
  destruct (row !! "Player Name") as [[s|z|]|]; simpl; auto.
  destruct (bool_decide (s = "")) eqn:Hs; simpl; auto.
  apply IH. rewrite elem_of_keys_dict_set. intros [<-|?]; [|done].
  by apply bool_decide_eq_false in Hs.
Qed.

Lemma load_rows_get rows d s :
  (load_rows rows d).2 = true → s ≠ "" →
  dict_get s (load_rows rows d).1 =
    match last (filter (Combiner.named s) rows) with
    | Some r => Some r
    | None => dict_get s d
    end.
Proof.
  intros Hok Hs. revert d Hok.
  induction rows as [|row rest IH]; intros d Hok; simpl in *; [done |].
  destruct (row !! "Player Name") as [[s'|z|]|] eqn:Hrow; simpl in *;
    try discriminate.
  - destruct (decide (s' = s)) as [->|Hne].
    + rewrite bool_decide_eq_false_2 in * by done. simpl in *.
      rewrite filter_cons_True by done. rewrite last_cons.
      rewrite IH by done. rewrite dict_get_set_eq.
      by destruct (last (filter (Combiner.named s) rest)).
    + rewrite filter_cons_False by (unfold named; congruence).
      destruct (bool_decide (s' = "")); simpl in *; rewrite IH by done;
        [done |].
      by rewrite dict_get_set_ne.
  - rewrite filter_cons_False by (unfold named; congruence). by apply IH.
  - rewrite filter_cons_False by (unfold named; congruence). by apply IH.
Qed.
End LoadFacts.

(** C9. After [load_player_stats] the dictionary holds at most one record
    per scraped player name, and that record is the last input row carrying
    the name: a later row replaces an earlier one of the same name, so two
    players of the same name are never both candidates. No record is kept
    under the empty name. *)
Theorem load_player_stats_one_record_per_name (rows : list (gmap string pyval)) :
  let d := (Combiner.load_player_stats rows).1 in
  NoDup (PyDict.keys d) ∧
  (∀ s r1 r2, (s, r1) ∈ d → (s, r2) ∈ d → r1 = r2) ∧
  PyDict.dict_get "" d = None ∧
  ((Combiner.load_player_stats rows).2 = true →
   ∀ s, s ≠ "" → PyDict.dict_get s d = last (filter (Combiner.named s) rows)).
Proof.
  intros d.
  assert (NoDup (PyDict.keys d)) as Hnd.
  { apply load_rows_NoDup. constructor. }
  split_and!; [done | | |].
  - intros s r1 r2 H1 H2.
    apply (elem_dict_get _ _ _ Hnd) in H1, H2. congruence.
  - apply dict_get_None. apply load_rows_keys_nonempty. by intros ?%elem_of_nil.
  - intros Hok s Hs. unfold d, Combiner.load_player_stats.
    rewrite load_rows_get by done.
    by destruct (last (filter (Combiner.named s) rows)).
Qed.

Lemma load_player_stats_one_record_per_name_witness :
  (Combiner.load_player_stats Examples.c9_rows).2 = true ∧
  PyDict.dict_get "A. Putra" (Combiner.load_player_stats Examples.c9_rows).1
    = last (filter (Combiner.named "A. Putra") Examples.c9_rows).
Proof.
  split; [reflexivity |].
  apply (load_player_stats_one_record_per_name Examples.c9_rows); [reflexivity | done].
Defined.

(** ** The team-validated cascade *)

Section CascadeFacts.
Import PyDict Combiner.

Lemma team_checked_Some team o stats :
  team_checked team o = Some stats → o = Some stats ∧ get stats "Team" = PStr team.
Proof.
  destruct o as [s|]; simpl; [|done].
  case_decide; [|done]. by intros [= ->].
Qed.

Lemma team_checked_perm team k (d1 d2 : stats_dict) :
  NoDup (keys d1) → d1 ≡ₚ d2 →
  team_checked team (dict_get k d1) = team_checked team (dict_get k d2).
Proof. intros Hnd Hp. by rewrite (dict_get_perm k d1 d2). Qed.

(** What the scan returns: the first entry passing the test, or nothing
    when no entry passes. *)
Lemma clean_scan_Some team cf cn d stats t :
  clean_scan team cf cn d = (Some stats, t) →
  ∃ k, (k, stats) ∈ d ∧ clean_hit team cf cn (k, stats) ∧ t = clean_tag cf (k, stats).
Proof.
  induction d as [|[k s] d IH]; simpl; [done |].
  unfold clean_hit, clean_tag. simpl.
  destruct (decide (get s "Team" = PStr team)) as [Ht|Ht].
  - destruct (decide (clean_name k = cf)) as [Hf|Hf].
    + intros [= <- <-]. exists k. split_and!; [left | done | by left |].
      by rewrite decide_True.
    + destruct (decide (clean_name k = cn)) as [Hn|Hn].
      * intros [= <- <-]. exists k. split_and!; [left | done | by right |].
        by rewrite decide_False.
      * intros (k' & Hin & Hhit & Htag)%IH. exists k'. split; [by right | done].
  - intros (k' & Hin & Hhit & Htag)%IH. exists k'. split; [by right | done].
Qed.

Lemma clean_scan_None team cf cn d t :
  clean_scan team cf cn d = (None, t) →
  t = no_match ∧ ∀ e, e ∈ d → ¬ clean_hit team cf cn e.
Proof.
  induction d as [|[k s] d IH]; simpl.
  - intros [= <-]. split; [done |]. by intros e ?%elem_of_nil.
  - destruct (decide (get s "Team" = PStr team)) as [Ht|Ht].
    + destruct (decide (clean_name k = cf)) as [Hf|Hf]; [done |].
      destruct (decide (clean_name k = cn)) as [Hn|Hn]; [done |].
      intros [-> Hall]%IH. split; [done |].
      intros e [->|Hin]%elem_of_cons; [|by apply Hall].
      unfold clean_hit. simpl. tauto.
    + intros [-> Hall]%IH. split; [done |].
      intros e [->|Hin]%elem_of_cons; [|by apply Hall].
      unfold clean_hit. simpl. tauto.
Qed.

Lemma clean_scan_no_match_None team cf cn d stats :
  clean_scan team cf cn d ≠ (Some stats, no_match).
Proof.
  intros (k & _ & _ & Htag)%clean_scan_Some.
  unfold clean_tag in Htag. by case_decide.
Qed.

(** With at most one entry passing the test the scan does not depend on
    the order of the entries. *)
Lemma clean_scan_perm team cf cn (d1 d2 : stats_dict) :
  d1 ≡ₚ d2 →
  (∀ e1 e2, e1 ∈ d1 → e2 ∈ d1 →
     clean_hit team cf cn e1 → clean_hit team cf cn e2 → e1 = e2) →
  clean_scan team cf cn d1 = clean_scan team cf cn d2.
Proof.
  intros Hp Huniq.
  destruct (clean_scan team cf cn d1) as [[s1|] t1] eqn:H1;
    destruct (clean_scan team cf cn d2) as [[s2|] t2] eqn:H2.
  - apply clean_scan_Some in H1 as (k1 & Hin1 & Hhit1 & ->).
    apply clean_scan_Some in H2 as (k2 & Hin2 & Hhit2 & ->).
    rewrite <-Hp in Hin2.
    by injection (Huniq _ _ Hin1 Hin2 Hhit1 Hhit2) as -> ->.
  - apply clean_scan_Some in H1 as (k1 & Hin1 & Hhit1 & ->).
    apply clean_scan_None in H2 as [_ Hall].
    rewrite Hp in Hin1. by destruct (Hall _ Hin1).
  - apply clean_scan_Some in H2 as (k2 & Hin2 & Hhit2 & ->).
    apply clean_scan_None in H1 as [_ Hall].
    rewrite <-Hp in Hin2. by destruct (Hall _ Hin2).
  - apply clean_scan_None in H1 as [-> _].
    by apply clean_scan_None in H2 as [-> _].
Qed.

(** Every record the cascade returns carries the team of the target. *)
Lemma find_player_stats_team d p stats t :
  find_player_stats d p = (Some stats, t) →
  get stats "Team" = PStr (team_name p) ∧ t ≠ no_match.
Proof.
  unfold find_player_stats.
  destruct (team_checked _ (dict_get (fullName p) d)) as [s1|] eqn:H1.
  { intros [= <- <-]. by apply team_checked_Some in H1 as [_ ?]. }
  destruct (team_checked _ (dict_get (name p) d)) as [s2|] eqn:H2.
  { intros [= <- <-]. by apply team_checked_Some in H2 as [_ ?]. }
  intros Hscan. split.
  - by apply clean_scan_Some in Hscan as (k & _ & [? _] & _).
  - intros ->. by apply clean_scan_no_match_None in Hscan.
Qed.
End CascadeFacts.

(** C4. The target "JOHN SMITH" of "FC ALPHA" is resolved to the candidate
    "John   Smith" of "FC ALPHA" with tier clean-fullname-team, whatever its
    display name is as long as that is not the scraped name itself; and no
    record whose team string differs from the target's is ever returned. *)
Theorem team_mismatch_is_never_returned :
  (∀ nm, nm ≠ "John   Smith" →
     Combiner.find_player_stats Examples.john_pool (Examples.john_target nm)
       = (Some Examples.john_alpha, Combiner.clean_fullname_team)) ∧
  (∀ d p stats t,
     Combiner.find_player_stats d p = (Some stats, t) →
     Combiner.get stats "Team" = PStr (Combiner.team_name p)).
Proof.
  split.
  - intros nm Hnm. unfold Combiner.find_player_stats, Examples.john_target.
    cbn [Combiner.fullName Combiner.name Combiner.team_name Examples.roster_entry].
    replace (Combiner.team_checked "FC ALPHA"
               (PyDict.dict_get "JOHN SMITH" Examples.john_pool))
      with (@None (gmap string pyval)) by (vm_compute; reflexivity).
    assert (Combiner.team_checked "FC ALPHA"
              (PyDict.dict_get nm Examples.john_pool) = None) as ->.
    { unfold Examples.john_pool. cbn [PyDict.dict_get].
      rewrite decide_False by done.
      destruct (decide ("JOHN SMITH" = nm)); reflexivity. }
    unfold Examples.john_pool. cbn [Combiner.clean_scan].
    rewrite decide_True by (vm_compute; reflexivity).
    rewrite decide_True by (vm_compute; reflexivity).
    reflexivity.
  - intros d p stats t H. by apply find_player_stats_team in H as [? _].
Qed.

Lemma team_mismatch_is_never_returned_witness :
  "" ≠ "John   Smith" ∧
  Combiner.find_player_stats Examples.john_pool (Examples.john_target "")
    = (Some Examples.john_alpha, Combiner.clean_fullname_team) ∧
  Combiner.get Examples.john_alpha "Team" = PStr "FC ALPHA".
Proof.
  destruct team_mismatch_is_never_returned as [Hex Hteam].
  assert ("" ≠ "John   Smith") as Hne by discriminate.
  split_and!; [exact Hne | exact (Hex "" Hne) |].
  exact (Hteam Examples.john_pool (Examples.john_target "") _ _ (Hex "" Hne)).
Defined.

(** Two candidates of one team, one equal to the cleaned full name and one
    to the cleaned display name of the target: the loop of strategy 3
    returns whichever comes first, so the record and the tier both change
    with the order of the pool. *)
Lemma find_player_stats_depends_on_order :
  Examples.smith_pool ≡ₚ Examples.smith_pool_swapped ∧
  NoDup (PyDict.keys Examples.smith_pool) ∧
  Combiner.find_player_stats Examples.smith_pool Examples.smith_target
    = (Some Examples.smith_full, Combiner.clean_fullname_team) ∧
  Combiner.find_player_stats Examples.smith_pool_swapped Examples.smith_target
    = (Some Examples.smith_short, Combiner.clean_name_team) ∧
  Combiner.find_player_stats Examples.smith_pool Examples.smith_target
    ≠ Combiner.find_player_stats Examples.smith_pool_swapped Examples.smith_target.
Proof.
  assert (Combiner.find_player_stats Examples.smith_pool Examples.smith_target
          = (Some Examples.smith_full, Combiner.clean_fullname_team)) as H1
    by (vm_compute; reflexivity).
  assert (Combiner.find_player_stats Examples.smith_pool_swapped Examples.smith_target
          = (Some Examples.smith_short, Combiner.clean_name_team)) as H2
    by (vm_compute; reflexivity).
  split_and!; [apply Permutation_swap | | exact H1 | exact H2 |].
  - unfold Examples.smith_pool, PyDict.keys. simpl.
    apply NoDup_cons. split; [|apply NoDup_singleton].
    by intros [=]%list_elem_of_singleton.
  - rewrite H1, H2. discriminate.
Qed.

(** C3, as the code has it. Permuting the candidate pool changes neither the
    record nor the tier returned when the match is made by a dictionary
    look-up (strategies 1 and 2), or when at most one candidate of the
    target's team has a cleaned name equal to the cleaned full name or the
    cleaned display name of the target. *)
Theorem find_player_stats_order_independent
    (p : Combiner.player) (d1 d2 : list (string * gmap string pyval)) :
  NoDup (PyDict.keys d1) →
  d1 ≡ₚ d2 →
  Combiner.exact_match (Combiner.find_player_stats d1 p).2 ∨
  (∀ e1 e2, e1 ∈ d1 → e2 ∈ d1 →
     Combiner.clean_candidate p e1 → Combiner.clean_candidate p e2 → e1 = e2) →
  Combiner.find_player_stats d1 p = Combiner.find_player_stats d2 p.
Proof.
  intros Hnd Hp Hcase. unfold Combiner.find_player_stats in *.
  rewrite <-(team_checked_perm _ (Combiner.fullName p) d1 d2 Hnd Hp).
  rewrite <-(team_checked_perm _ (Combiner.name p) d1 d2 Hnd Hp).
  destruct (Combiner.team_checked _ (PyDict.dict_get (Combiner.fullName p) d1));
    [done |].
  destruct (Combiner.team_checked _ (PyDict.dict_get (Combiner.name p) d1));
    [done |].
  destruct Hcase as [Hexact|Huniq].
  - exfalso.
    destruct (Combiner.clean_scan _ _ _ d1) as [[s|] t] eqn:Hscan; simpl in Hexact.
    + apply clean_scan_Some in Hscan as (k & _ & _ & ->).
      unfold Combiner.clean_tag in Hexact.
      destruct Hexact as [He|He]; by case_decide.
    + apply clean_scan_None in Hscan as [-> _].
      by destruct Hexact.
  - by apply clean_scan_perm.
Qed.

Lemma find_player_stats_order_independent_witness :
  Combiner.find_player_stats Examples.john_pool (Examples.john_target "")
  = Combiner.find_player_stats (reverse Examples.john_pool) (Examples.john_target "").
Proof.
  apply find_player_stats_order_independent.
  - unfold Examples.john_pool, PyDict.keys. simpl.
    apply NoDup_cons. split; [|apply NoDup_singleton].
    by intros [=]%list_elem_of_singleton.
  - unfold Examples.john_pool. simpl. apply Permutation_swap.
  - right. intros e1 e2 [->|[->|[]%elem_of_nil]%elem_of_cons]%elem_of_cons
      [->|[->|[]%elem_of_nil]%elem_of_cons]%elem_of_cons; try done.
    + intros _ [Hteam _]. vm_compute in Hteam. discriminate.
    + intros [Hteam _]. vm_compute in Hteam. discriminate.
Defined.

(** ** The merge *)

Section MergeFacts.
Import PyDict Combiner.

(** A loop of assignments [row[col] = f(col)] over a list of columns. *)
Lemma foldl_insert_lookup (f : string → pyval) cols (row : gmap string pyval) k :
  foldl (fun acc col => <[col := f col]> acc) row cols !! k
  = if decide (k ∈ cols) then Some (f k) else row !! k.
Proof.
  revert row. induction cols as [|c cols IH]; intros row.
  - cbn [foldl]. by rewrite decide_False by (by intros ?%elem_of_nil).
  - cbn [foldl]. rewrite IH.
    destruct (decide (k ∈ cols)) as [Hin|Hnin].
    + by rewrite decide_True by (by right).
    + destruct (decide (k = c)) as [->|Hne].
      * rewrite decide_True by left. apply lookup_insert_eq.
      * rewrite decide_False by (intros [?|?]%elem_of_cons; done).
        by apply lookup_insert_ne.
Qed.

Lemma get_create_empty_stats col :
  col ∈ stat_columns → get create_empty_stats col = PInt 0.
Proof.
  intros Hin. unfold get, create_empty_stats.
  rewrite (foldl_insert_lookup (fun _ => PInt 0)).
  by rewrite decide_True.
Qed.

(** The value the merge writes for the cell [v]. *)
Lemma add_statistics_lookup stats row col :
  col ∈ stat_columns →
  ∃ v, add_statistics stats row !! col = Some v ∧
       ¬ is_blank v ∧
       (is_blank (get stats col) → v = PInt 0) ∧
       (¬ is_blank (get stats col) → v = get stats col).
Proof.
  intros Hin. unfold add_statistics.
  rewrite (foldl_insert_lookup
             (fun col => if decide (get stats col = PStr "") then PInt 0
                         else if decide (get stats col = PNone) then PInt 0
                         else get stats col)).
  rewrite decide_True by done. eexists. split; [reflexivity |].
  unfold is_blank.
  destruct (decide (get stats col = PStr "")) as [H1|H1];
    [|destruct (decide (get stats col = PNone)) as [H2|H2]].
  - split_and!; [intros [?|?]; done | done | tauto].
  - split_and!; [intros [?|?]; done | done | tauto].
  - split_and!; [tauto | tauto | done].
Qed.

Lemma add_statistics_lookup_other stats row k :
  k ∉ stat_columns → add_statistics stats row !! k = row !! k.
Proof.
  intros Hnin. unfold add_statistics.
  rewrite (foldl_insert_lookup
             (fun col => if decide (get stats col = PStr "") then PInt 0
                         else if decide (get stats col = PNone) then PInt 0
                         else get stats col)).
  by rewrite decide_False.
Qed.

Lemma combined_row_info p stats :
  combined_row p stats !! "Name" = Some (PStr (name p)) ∧
  combined_row p stats !! "Player Name" = Some (PStr (fullName p)) ∧
  combined_row p stats !! "Team" = Some (PStr (team_name p)).
Proof.
  unfold combined_row.
  rewrite !add_statistics_lookup_other
    by (apply (proj1 (bool_decide_eq_false _)); vm_compute; reflexivity).
  split_and!; by simplify_map_eq.
Qed.

(** The loop of [combine_data] appends one row per player, in order. *)
Lemma combine_loop d players acc sm :
  foldl (fun acc p => combine_player d p acc) (acc, sm) players
  = (acc ++ map (fun p => combined_row p (stats_of (find_player_stats d p))) players,
     foldl (fun sm p => tally p (find_player_stats d p) sm) sm players).
Proof.
  revert acc sm. induction players as [|p players IH]; intros acc sm.
  - cbn [foldl map]. by rewrite app_nil_r.
  - cbn [foldl map]. unfold combine_player at 2. cbn [fst snd].
    rewrite IH. by rewrite <-app_assoc.
Qed.

(** The counters when nothing is found for any player. *)
Lemma tally_unmatched d players sm :
  (∀ p, p ∈ players → (find_player_stats d p).1 = None) →
  let sm' := foldl (fun sm p => tally p (find_player_stats d p) sm) sm players in
  matched_count sm' = matched_count sm ∧
  team_validated_matches sm' = team_validated_matches sm ∧
  non_team_matches sm' = non_team_matches sm ∧
  length (unmatched_players sm') = (length (unmatched_players sm) + length players)%nat.
Proof.
  revert sm. induction players as [|p players IH]; intros sm Hnone; cbn [foldl].
  - cbn. split_and!; try done; lia.
  - destruct (IH (tally p (find_player_stats d p) sm)) as (H1 & H2 & H3 & H4).
    { intros q Hq. apply Hnone. by right. }
    cbn zeta in *. rewrite H1, H2, H3, H4.
    unfold tally, is_matched. rewrite (Hnone p) by left. cbn.
    split_and!; try done; rewrite ?length_app; cbn; lia.
Qed.
End MergeFacts.

(** A matched player keeps the text of the non-empty cells of its record:
    "5" stays the string "5" and the unparseable "n/a" stays "n/a"; only the
    empty cell becomes 0. With an empty statistics pool no record is
    produced at all. *)
Lemma combine_data_keeps_cell_text :
  ∃ rows sm row,
    Combiner.combine_data Examples.putra_roster Examples.putra_pool = Some (rows, sm) ∧
    rows !! 0%nat = Some row ∧
    row !! "Goal" = Some (PStr "5") ∧ ¬ Combiner.is_numeric (PStr "5") ∧
    row !! "Assist" = Some (PStr "n/a") ∧ PStr "n/a" ≠ PInt 0 ∧
    row !! "Tackle" = Some (PInt 0) ∧
    Combiner.combine_data Examples.putra_roster [] = None.
Proof.
  eexists _, _, _. split.
  { unfold Combiner.combine_data, Examples.putra_roster, Examples.putra_pool.
    rewrite combine_loop. reflexivity. }
  split; [reflexivity |].
  split; [vm_compute; reflexivity |].
  split; [intros [z [=]] |].
  split; [vm_compute; reflexivity |].
  split; [discriminate |].
  split; [vm_compute; reflexivity | reflexivity].
Qed.

(** C2, as the code has it. For a non-empty roster and a non-empty
    statistics pool, [combine_data] produces exactly one record per roster
    player, in roster order; on each record every fixed metric column is
    present and is neither the empty string nor [None]: it holds 0 when the
    player is unmatched or the cell of the matched record is empty or
    absent, and the text of that cell, unchanged, otherwise. When no player
    matches, every metric of every record is 0 and the summary counts no
    match. *)
Theorem combine_data_one_row_per_player
    (players : list Combiner.player) (d : list (string * gmap string pyval)) :
  players ≠ [] → d ≠ [] →
  ∃ rows sm,
    Combiner.combine_data players d = Some (rows, sm) ∧
    length rows = length players ∧
    (∀ i p, players !! i = Some p →
       ∃ row, rows !! i = Some row ∧
         row !! "Name" = Some (PStr (Combiner.name p)) ∧
         row !! "Player Name" = Some (PStr (Combiner.fullName p)) ∧
         row !! "Team" = Some (PStr (Combiner.team_name p)) ∧
         ∀ col, col ∈ Combiner.stat_columns →
           ∃ v, row !! col = Some v ∧ ¬ Combiner.is_blank v ∧
             ((Combiner.find_player_stats d p).1 = None → v = PInt 0) ∧
             (∀ stats, (Combiner.find_player_stats d p).1 = Some stats →
                stats ≠ ∅ →
                (Combiner.is_blank (Combiner.get stats col) → v = PInt 0) ∧
                (¬ Combiner.is_blank (Combiner.get stats col) →
                 v = Combiner.get stats col))) ∧
    ((∀ p, p ∈ players → (Combiner.find_player_stats d p).1 = None) →
       Combiner.matched_count sm = 0%nat ∧
       Combiner.team_validated_matches sm = 0%nat ∧
       Combiner.non_team_matches sm = 0%nat ∧
       length (Combiner.unmatched_players sm) = length players ∧
       ∀ row col, row ∈ rows → col ∈ Combiner.stat_columns →
         row !! col = Some (PInt 0)).
Proof.
  intros Hplayers Hd.
  eexists _, _. split.
  { unfold Combiner.combine_data.
    destruct players as [|p0 players]; [done |].
    destruct d as [|e d]; [done |].
    rewrite combine_loop. reflexivity. }
  cbn [app]. split_and!.
  - by rewrite length_map.
  - intros i p Hi. eexists. split.
    { rewrite list_lookup_fmap, Hi. reflexivity. }
    destruct (combined_row_info p
                (Combiner.stats_of (Combiner.find_player_stats d p)))
      as (HN & HP & HT).
    split_and!; try done.
    intros col Hcol. unfold Combiner.combined_row.
    destruct (add_statistics_lookup
                (Combiner.stats_of (Combiner.find_player_stats d p))
                (<["Appearances" := Combiner.penampilan p]>
                 (<["Picture Url" := Combiner.pictureUrl p]>
                 (<["Position" := Combiner.posisi p]>
                 (<["Age" := Combiner.usia p]>
                 (<["Country" := Combiner.negara p]>
                 (<["Team" := PStr (Combiner.team_name p)]>
                 (<["Player Name" := PStr (Combiner.fullName p)]>
                 (<["Name" := PStr (Combiner.name p)]> ∅))))))))
                col Hcol) as (v & Hv & Hnb & Hblank & Hfull).
    exists v. split_and!; try done.
    + intros Hnone. revert Hblank Hfull.
      unfold Combiner.stats_of, Combiner.is_matched. rewrite Hnone.
      rewrite get_create_empty_stats by done.
      intros _ Hfull. apply Hfull. intros [?|?]; done.
    + intros stats Hsome Hne. revert Hblank Hfull.
      unfold Combiner.stats_of, Combiner.is_matched. rewrite Hsome.
      rewrite bool_decide_eq_true_2 by done.
      destruct (Combiner.find_player_stats d p) as [found mt] eqn:Hfind.
      cbn [fst snd] in *. subst found.
      destruct (find_player_stats_team _ _ _ _ Hfind) as [_ Hmt].
      rewrite bool_decide_eq_false_2 by done. cbn. done.
  - intros Hnone.
    destruct (tally_unmatched d players Combiner.summary0 Hnone)
      as (H1 & H2 & H3 & H4).
    cbn zeta in *. rewrite H1, H2, H3, H4. split_and!; try done.
    intros row col (p & -> & Hp)%list_elem_of_fmap Hcol.
    unfold Combiner.combined_row.
    destruct (add_statistics_lookup
                (Combiner.stats_of (Combiner.find_player_stats d p))
                (<["Appearances" := Combiner.penampilan p]>
                 (<["Picture Url" := Combiner.pictureUrl p]>
                 (<["Position" := Combiner.posisi p]>
                 (<["Age" := Combiner.usia p]>
                 (<["Country" := Combiner.negara p]>
                 (<["Team" := PStr (Combiner.team_name p)]>
                 (<["Player Name" := PStr (Combiner.fullName p)]>
                 (<["Name" := PStr (Combiner.name p)]> ∅))))))))
                col Hcol) as (v & Hv & Hnb & Hblank & Hfull).
    rewrite Hv. f_equal. revert Hfull.
    unfold Combiner.stats_of, Combiner.is_matched. rewrite (Hnone p Hp).
    rewrite get_create_empty_stats by done.
    intros Hfull. apply Hfull. intros [?|?]; done.
Qed.

Lemma combine_data_one_row_per_player_witness :
  ∃ rows sm,
    Combiner.combine_data Examples.putra_roster Examples.putra_pool = Some (rows, sm) ∧
    length rows = length Examples.putra_roster.
Proof.
  destruct (combine_data_one_row_per_player
              Examples.putra_roster Examples.putra_pool)
    as (rows & sm & Hrun & Hlen & _); [discriminate | discriminate |].
  by exists rows, sm.
Defined.

(** ** The resolver without team validation *)

Section ScraperFacts.
Import Combiner Scraper.

Lemma contains_empty b : PyStr.contains "" b = true.
Proof. by destruct b. Qed.

(** The empty full name passes the containment test of every name. *)
Lemma either_contains_empty s : either_contains s (PyStr.upper "") = true.
Proof.
  unfold either_contains. cbn [PyStr.upper].
  by rewrite contains_empty, orb_true_r.
Qed.

Lemma find_None_forall {A} (f : A → bool) l :
  (∀ x, x ∈ l → f x = false) → find f l = None.
Proof.
  induction l as [|x l IH]; intros Hall; cbn [find]; [done |].
  rewrite (Hall x) by left. apply IH. intros y Hy. apply Hall. by right.
Qed.

(** [find] returns the first element passing the test. *)
Lemma find_Some_first {A} (f : A → bool) l x :
  find f l = Some x →
  ∃ l1 l2, l = l1 ++ x :: l2 ∧ f x = true ∧ ∀ y, y ∈ l1 → f y = false.
Proof.
  induction l as [|a l IH]; cbn [find]; [done |].
  destruct (f a) eqn:Ha.
  - intros [= ->]. exists [], l. split_and!; [done | done |].
    by intros y ?%elem_of_nil.
  - intros (l1 & l2 & -> & Hx & Hl1)%IH.
    exists (a :: l1), l2. split_and!; [done | done |].
    intros y [->|Hy]%elem_of_cons; [done | by apply Hl1].
Qed.

Lemma find_is_Some {A} (f : A → bool) l x :
  x ∈ l → f x = true → is_Some (find f l).
Proof.
  induction l as [|a l IH]; [by intros ?%elem_of_nil |].
  intros [->|Hin]%elem_of_cons Hx; cbn [find].
  - rewrite Hx. by eexists.
  - destruct (f a); [by eexists | by apply IH].
Qed.
End ScraperFacts.

(** A player whose full name contains the scraped name comes before the
    player with the empty full name: the resolver returns the former, not
    the first player with an empty full name. *)
Lemma match_player_by_fullname_not_first_blank :
  find (fun p => bool_decide (PyStr.upper (Combiner.fullName p) = "JOHN"))
       Examples.scraper_roster = None ∧
  find (fun p => bool_decide (PyStr.upper (Combiner.name p) = "JOHN"))
       Examples.scraper_roster = None ∧
  find (fun p => bool_decide (Combiner.fullName p = ""))
       Examples.scraper_roster = Some Examples.blank_player ∧
  Scraper.match_player_by_fullname "John" Examples.scraper_roster
    = Some Examples.smith_player ∧
  Examples.smith_player ≠ Examples.blank_player.
Proof. split_and!; try (vm_compute; reflexivity). discriminate. Qed.

(** C10, as the code has it. A player with an empty full name passes the
    containment test of every scraped name. Hence, for a scraped name that
    neither exact strategy matches, a pool holding such a player always
    yields a player: the first one in pool order whose upper-cased full name
    contains, or is contained in, the cleaned scraped name. No player with
    an empty full name comes before it, so it is the first player with an
    empty full name unless an earlier full name passes the test. *)
Theorem match_player_by_fullname_blank_fullname
    (scraped_name : string) (all_players : list Combiner.player) :
  let s := PyStr.upper (Scraper.clean_text scraped_name) in
  (∀ q, q ∈ all_players →
     PyStr.upper (Combiner.fullName q) ≠ s ∧ PyStr.upper (Combiner.name q) ≠ s) →
  (∃ q, q ∈ all_players ∧ Combiner.fullName q = "") →
  (∀ q, Combiner.fullName q = "" →
     Scraper.either_contains s (PyStr.upper (Combiner.fullName q)) = true) ∧
  ∃ p l1 l2,
    Scraper.match_player_by_fullname scraped_name all_players = Some p ∧
    all_players = l1 ++ p :: l2 ∧
    Scraper.either_contains s (PyStr.upper (Combiner.fullName p)) = true ∧
    ∀ q, q ∈ l1 →
      Scraper.either_contains s (PyStr.upper (Combiner.fullName q)) = false ∧
      Combiner.fullName q ≠ "".
Proof.
  intros s Hexact (q0 & Hq0 & Hblank).
  split.
  { intros q ->. apply either_contains_empty. }
  unfold Scraper.match_player_by_fullname. fold s.
  rewrite (find_None_forall
             (fun p => bool_decide (PyStr.upper (Combiner.fullName p) = s)))
    by (intros q Hq; apply bool_decide_eq_false; by apply Hexact).
  rewrite (find_None_forall
             (fun p => bool_decide (PyStr.upper (Combiner.name p) = s)))
    by (intros q Hq; apply bool_decide_eq_false; by apply Hexact).
  destruct (find_is_Some
              (fun p => Scraper.either_contains s (PyStr.upper (Combiner.fullName p)))
              all_players q0 Hq0) as [p Hp].
  { rewrite Hblank. apply either_contains_empty. }
  rewrite Hp.
  destruct (find_Some_first _ _ _ Hp) as (l1 & l2 & Hsplit & Hpass & Hbefore).
  exists p, l1, l2. split_and!; try done.
  intros q Hq. split; [by apply Hbefore |].
  intros Hq_blank. specialize (Hbefore q Hq). cbn beta in Hbefore.
  rewrite Hq_blank in Hbefore. by rewrite either_contains_empty in Hbefore.
Qed.

Lemma match_player_by_fullname_blank_fullname_witness :
  ∃ p, Scraper.match_player_by_fullname "Budi" Examples.scraper_roster = Some p.
Proof.
  destruct (match_player_by_fullname_blank_fullname "Budi" Examples.scraper_roster)
    as (_ & p & l1 & l2 & Hp & _).
  - intros q [->|[->|[]%elem_of_nil]%elem_of_cons]%elem_of_cons;
      split; vm_compute; discriminate.
  - exists Examples.blank_player. split; [right; left | reflexivity].
  - by exists p.
Defined.

(** ** The scorer: sums, extremes and the normalisation of a column *)

Section ScorerFacts.
Import PyDict Scorer.

Lemma foldl_Qcplus_acc (a : Qc) (l : list Qc) :
  foldl Qcplus a l = (a + foldl Qcplus 0%Qc l)%Qc.
Proof.
  revert a. induction l as [|x l IH]; intros a; cbn [foldl].
  - ring.
  - rewrite IH, (IH (0 + x)%Qc). ring.
Qed.

Lemma foldl_Qcplus_cons (x : Qc) (l : list Qc) :
  foldl Qcplus 0%Qc (x :: l) = (x + foldl Qcplus 0%Qc l)%Qc.
Proof. cbn [foldl]. rewrite foldl_Qcplus_acc. ring. Qed.



Lemma Qc_min_same x : Qc_min x x = x.
Proof. unfold Qc_min. by destruct (decide _). Qed.

Lemma Qc_max_same x : Qc_max x x = x.
Proof. unfold Qc_max. by destruct (decide _). Qed.

(** A series of equal values has equal extremes. *)
Lemma series_extremes_constant x l :
  l ≠ [] → (∀ y, y ∈ l → y = x) →
  series_min l = Some x ∧ series_max l = Some x.
Proof.
  destruct l as [|y l]; [done |]. intros _ Hall.
  rewrite (Hall y) by left.
  assert (∀ z, z ∈ l → z = x) as Hl by (intros z Hz; apply Hall; by right).
  cbn [series_min series_max]. clear Hall.
  induction l as [|z l IH]; cbn [foldl]; [done |].
  rewrite (Hl z) by left. rewrite Qc_min_same, Qc_max_same.
  apply IH. intros w Hw. apply Hl. by right.
Qed.

Lemma series_extremes_is_Some l :
  l ≠ [] → ∃ lo hi, series_min l = Some lo ∧ series_max l = Some hi.
Proof. destruct l; [done |]. intros _. by eexists _, _. Qed.

Lemma length_normalize l neg : length (normalize l neg) = length l.
Proof.
  unfold normalize. destruct l as [|x l]; [done |].
  cbn [series_min series_max].
  destruct (decide _); [|destruct neg]; by rewrite length_map.
Qed.

Lemma length_col df m : length (col df m) = length (rows df).
Proof. unfold col. by rewrite length_map. Qed.

(** The vectorised normalisation of the full pass and the scalar one of
    the breakdown give the same value at every position. *)
Lemma normalize_lookup l neg lo hi i v :
  series_min l = Some lo → series_max l = Some hi → l !! i = Some v →
  normalize l neg !! i = Some (normalized_value neg lo hi v).
Proof.
  intros Hlo Hhi Hv. unfold normalize, normalized_value. rewrite Hlo, Hhi.
  destruct (decide (hi = lo)); [|destruct neg];
    by rewrite list_lookup_fmap, Hv.
Qed.

Lemma normalize_no_variance l neg x :
  series_min l = Some x → series_max l = Some x →
  normalize l neg = map (fun _ => fifty) l.
Proof.
  intros Hlo Hhi. unfold normalize. rewrite Hlo, Hhi.
  by rewrite decide_True.
Qed.

(** *** Weights *)

Lemma keys_normalize_weights available :
  keys (normalize_weights available) = keys available.
Proof.
  unfold normalize_weights, keys. destruct (decide _); [|done].
  rewrite map_map. by apply map_ext.
Qed.

Lemma available_weights_columns df weights additional m w :
  (m, w) ∈ available_weights df weights additional → m ∈ columns df.
Proof.
  unfold available_weights. by intros [? _]%list_elem_of_filter.
Qed.

Lemma keys_dict_update {V} (d other : list (string * V)) k :
  k ∈ keys (dict_update d other) → k ∈ keys d ++ keys other.
Proof.
  unfold dict_update. revert d.
  induction other as [|[k' v'] other IH]; intros d; cbn [foldl keys map].
  - by rewrite app_nil_r.
  - intros Hk%IH. apply elem_of_app in Hk as [Hk|Hk].
    + apply elem_of_keys_dict_set in Hk as [->|Hk].
      * apply elem_of_app. right. left.
      * apply elem_of_app. by left.
    + apply elem_of_app. right. by right.
Qed.

(** No weight names a column: nothing is left after the filter. *)
Lemma available_weights_nil df weights additional :
  (∀ m, m ∈ keys weights ++ keys additional → m ∉ columns df) →
  available_weights df weights additional = [].
Proof.
  intros Hnone. unfold available_weights.
  destruct (filter _ _) as [|[m w] l] eqn:Hf; [done |].
  assert ((m, w) ∈ filter (λ kv : string * Qc, kv.1 ∈ columns df)
                     (dict_update weights additional)) as Hin
    by (rewrite Hf; left).
  apply list_elem_of_filter in Hin as [Hcol Hin].
  exfalso. apply (Hnone m); [|done].
  apply keys_dict_update. apply list_elem_of_fmap. by exists (m, w).
Qed.

(** *** The accumulated scores *)

Lemma length_add_weighted acc vals w :
  length vals = length acc → length (add_weighted acc vals w) = length acc.
Proof. intros Hlen. unfold add_weighted. rewrite length_zip_with. lia. Qed.

Lemma length_weighted_scores_from df nw acc :
  length acc = length (rows df) →
  length (foldl (fun acc kv =>
                   if bool_decide (kv.1 ∈ columns df)
                   then add_weighted acc (normalize (col df kv.1) (is_negative kv.1)) kv.2
                   else acc) acc nw) = length (rows df).
Proof.
  revert acc. induction nw as [|kv nw IH]; intros acc Hacc; cbn [foldl]; [done |].
  apply IH. destruct (bool_decide _); [|done].
  rewrite length_add_weighted; [done |].
  by rewrite length_normalize, length_col.
Qed.

Lemma length_weighted_scores df nw :
  length (weighted_scores df nw) = length (rows df).
Proof.
  unfold weighted_scores. apply length_weighted_scores_from.
  by rewrite length_map.
Qed.


(** *** Sorting and ranking *)

Lemma insert_desc_perm r l : insert_desc r l ≡ₚ r :: l.
Proof.
  induction l as [|r' l IH]; cbn [insert_desc]; [done |].
  destruct (decide _); [done |]. rewrite IH. apply perm_swap.
Qed.

Lemma sort_values_perm l : sort_values l ≡ₚ l.
Proof.
  unfold sort_values. induction l as [|r l IH]; cbn [foldr]; [done |].
  by rewrite insert_desc_perm, IH.
Qed.

Lemma with_rank_snd l : map snd (with_rank l) = l.
Proof. unfold with_rank. apply snd_zip. by rewrite length_seq. Qed.

Lemma with_rank_fst l : map fst (with_rank l) = seq 1 (length l).
Proof. unfold with_rank. apply fst_zip. by rewrite length_seq. Qed.

Lemma scored_rows_lookup df nw i r :
  rows df !! i = Some r →
  ∃ s, weighted_scores df nw !! i = Some s ∧
    scored_rows df nw !! i
    = Some {| base := r; score := s;
              percentile :=
                (average_rank s (weighted_scores df nw)
                 / Qc_of_nat (length (weighted_scores df nw)) * hundred)%Qc |}.
Proof.
  intros Hr.
  destruct (lookup_lt_is_Some_2 (weighted_scores df nw) i) as [s Hs].
  { rewrite length_weighted_scores. by eapply lookup_lt_Some. }
  exists s. split; [done |].
  unfold scored_rows. rewrite lookup_zip_with, Hr. cbn [mbind option_bind].
  rewrite lookup_zip_with, Hs. cbn [mbind option_bind].
  unfold rank_pct. rewrite !list_lookup_fmap, Hs. done.
Qed.

Lemma length_scored_rows df nw :
  length (scored_rows df nw) = length (rows df).
Proof.
  unfold scored_rows. rewrite length_zip_with, length_zip, length_map.
  unfold rank_pct. rewrite length_map, length_weighted_scores. lia.
Qed.

Lemma scored_rows_elem df nw sr :
  sr ∈ scored_rows df nw →
  ∃ i r, rows df !! i = Some r ∧ base sr = r ∧
    weighted_scores df nw !! i = Some (score sr) ∧
    percentile sr
    = (average_rank (score sr) (weighted_scores df nw)
       / Qc_of_nat (length (weighted_scores df nw)) * hundred)%Qc.
Proof.
  intros [i Hi]%list_elem_of_lookup_1.
  destruct (lookup_lt_is_Some_2 (rows df) i) as [r Hr].
  { rewrite <-(length_scored_rows df nw). by eapply lookup_lt_Some. }
  destruct (scored_rows_lookup df nw i r Hr) as (s & Hs & Hsr).
  rewrite Hi in Hsr. injection Hsr as ->. by exists i, r.
Qed.

Lemma scored_rows_scores df nw :
  map score (scored_rows df nw) = weighted_scores df nw.
Proof.
  apply list_eq. intros i. rewrite list_lookup_fmap.
  destruct (rows df !! i) as [r|] eqn:Hr.
  - destruct (scored_rows_lookup df nw i r Hr) as (s & Hs & ->). by rewrite Hs.
  - apply lookup_ge_None in Hr.
    rewrite (proj2 (lookup_ge_None (scored_rows df nw) i))
      by (by rewrite length_scored_rows).
    symmetry. apply lookup_ge_None. by rewrite length_weighted_scores.
Qed.

(** *** Counting and the average rank *)

Lemma Qc_of_nat_Z n : Qc_of_nat n = Qc_of_Z (Z.of_nat n).
Proof. apply Qc_is_canon. cbn. by rewrite inject_Z_Qred. Qed.

Lemma Qc_of_nat_0 : Qc_of_nat 0 = 0%Qc.
Proof. by apply Qc_is_canon. Qed.

Lemma Qc_of_nat_S n : Qc_of_nat (S n) = (Qc_of_nat n + 1)%Qc.
Proof.
  rewrite !Qc_of_nat_Z, Nat2Z.inj_succ, <-Z.add_1_r, Z2Qc_inj_add.
  by rewrite Z2Qc_inj_1.
Qed.

Lemma Qc_of_nat_pos n : (0 < n)%nat → (0 < Qc_of_nat n)%Qc.
Proof.
  intros Hn. rewrite Qc_of_nat_Z, <-Z2Qc_inj_0. apply (proj1 (Z2Qc_inj_lt 0 (Z.of_nat n))). lia.
Qed.

(** Twice the sum of the positions [a+1 .. a+k]. *)
Lemma sum_positions a k :
  ((1 + 1) * foldr Qcplus 0%Qc (map Qc_of_nat (seq (S a) k))
   = Qc_of_nat k * ((1 + 1) * Qc_of_nat a + Qc_of_nat k + 1))%Qc.
Proof.
  revert a. induction k as [|k IH]; intros a.
  - cbn [seq map foldr]. rewrite Qc_of_nat_0. ring.
  - cbn [seq map foldr].
    assert (∀ x y : Qc, ((1 + 1) * (x + y) = (1 + 1) * x + (1 + 1) * y)%Qc) as Hd
      by (intros; ring).
    rewrite Hd, IH, !Qc_of_nat_S. ring.
Qed.

(** The mean of the positions of a group of [k > 0] equal values that has
    [a] smaller values before it. *)
Lemma average_rank_value x l :
  x ∈ l →
  average_rank x l
  = (Qc_of_nat (count_lt x l) + (Qc_of_nat (count_eq x l) + 1) / (1 + 1))%Qc.
Proof.
  intros Hx. unfold average_rank, group_positions.
  assert (0 < Qc_of_nat (count_eq x l))%Qc as Hpos.
  { apply Qc_of_nat_pos. unfold count_eq.
    assert (x ∈ filter (λ y, y = x) l) as Hin by (by apply list_elem_of_filter).
    destruct (filter _ l); [by apply elem_of_nil in Hin | cbn; lia]. }
  assert (Qc_of_nat (count_eq x l) ≠ 0%Qc) as Hne.
  { intros Heq. rewrite Heq in Hpos. by apply (irreflexivity Qclt) in Hpos. }
  pose proof (sum_positions (count_lt x l) (count_eq x l)) as Hsum.
  set (s := foldr Qcplus 0%Qc (map Qc_of_nat (seq (S (count_lt x l)) (count_eq x l)))) in *.
  assert (s = Qc_of_nat (count_eq x l)
              * ((1 + 1) * Qc_of_nat (count_lt x l) + Qc_of_nat (count_eq x l) + 1)
              / (1 + 1))%Qc as ->.
  { rewrite <-Hsum. field. done. }
  field. split; done.
Qed.

Lemma count_lt_perm x l1 l2 : l1 ≡ₚ l2 → count_lt x l1 = count_lt x l2.
Proof. intros Hp. unfold count_lt. by rewrite Hp. Qed.

Lemma count_eq_perm x l1 l2 : l1 ≡ₚ l2 → count_eq x l1 = count_eq x l2.
Proof. intros Hp. unfold count_eq. by rewrite Hp. Qed.

(** *** The breakdown of one player *)

Lemma col_lookup df m i r :
  rows df !! i = Some r → col df m !! i = Some (default 0%Qc (nums r !! m)).
Proof. intros Hr. unfold col. by rewrite list_lookup_fmap, Hr. Qed.

Lemma col_extremes df m i r :
  rows df !! i = Some r →
  ∃ lo hi, series_min (col df m) = Some lo ∧ series_max (col df m) = Some hi.
Proof.
  intros Hr. apply series_extremes_is_Some.
  intros Hnil. pose proof (col_lookup df m i r Hr) as Hc.
  by rewrite Hnil in Hc.
Qed.

(** What the loop of the breakdown returns for a metric of the frame. *)
Lemma metric_contribution_Some df i r kv :
  rows df !! i = Some r → kv.1 ∈ columns df →
  ∃ lo hi,
    series_min (col df kv.1) = Some lo ∧ series_max (col df kv.1) = Some hi ∧
    metric_contribution df r kv
    = Some (kv.1,
            {| raw_value := default 0%Qc (nums r !! kv.1);
               normalized_score :=
                 normalized_value (is_negative kv.1) lo hi (default 0%Qc (nums r !! kv.1));
               weight := kv.2;
               weighted_contribution :=
                 (normalized_value (is_negative kv.1) lo hi (default 0%Qc (nums r !! kv.1))
                  * kv.2)%Qc |}).
Proof.
  intros Hr Hcol. destruct (col_extremes df kv.1 i r Hr) as (lo & hi & Hlo & Hhi).
  exists lo, hi. split_and!; [done | done |].
  unfold metric_contribution. by rewrite bool_decide_eq_true_2, Hlo, Hhi.
Qed.

(** The score accumulated for the player at position [i] is the sum of
    the weighted contributions of the breakdown of that player. *)
Lemma weighted_scores_lookup_from df nw acc i r a :
  rows df !! i = Some r → acc !! i = Some a →
  foldl (fun acc kv =>
           if bool_decide (kv.1 ∈ columns df)
           then add_weighted acc (normalize (col df kv.1) (is_negative kv.1)) kv.2
           else acc) acc nw !! i
  = Some (a + foldl Qcplus 0%Qc
                (map (fun mc => weighted_contribution mc.2)
                     (omap (metric_contribution df r) nw)))%Qc.
Proof.
  intros Hr. revert acc a.
  induction nw as [|kv nw IH]; intros acc a Ha; cbn [foldl omap list_omap map].
  - rewrite Ha. f_equal. ring.
  - destruct (decide (kv.1 ∈ columns df)) as [Hcol|Hcol].
    + destruct (metric_contribution_Some df i r kv Hr Hcol)
        as (lo & hi & Hlo & Hhi & ->).
      rewrite bool_decide_eq_true_2 by done.
      erewrite IH; last first.
      { unfold add_weighted. rewrite lookup_zip_with, Ha. cbn [mbind option_bind].
        rewrite (normalize_lookup _ _ lo hi i _ Hlo Hhi (col_lookup df kv.1 i r Hr)).
        reflexivity. }
      cbn [map snd weighted_contribution]. rewrite foldl_Qcplus_cons.
      f_equal. ring.
    + rewrite bool_decide_eq_false_2 by done.
      unfold metric_contribution at 1. rewrite bool_decide_eq_false_2 by done.
      by apply IH.
Qed.

Lemma weighted_scores_lookup df nw i r :
  rows df !! i = Some r →
  weighted_scores df nw !! i
  = Some (foldl Qcplus 0%Qc
            (map (fun mc => weighted_contribution mc.2)
                 (omap (metric_contribution df r) nw))).
Proof.
  intros Hr. unfold weighted_scores.
  rewrite (weighted_scores_lookup_from df nw _ i r 0%Qc Hr).
  - f_equal. ring.
  - by rewrite list_lookup_fmap, Hr.
Qed.

(** The entries of the breakdown follow the weights, one for one. *)
Lemma contributions_follow_weights df nw i r :
  rows df !! i = Some r → (∀ kv, kv ∈ nw → kv.1 ∈ columns df) →
  Forall2 (fun kv mc =>
             mc.1 = kv.1 ∧ weight mc.2 = kv.2 ∧
             raw_value mc.2 = default 0%Qc (nums r !! kv.1) ∧
             (∃ lo hi, series_min (col df kv.1) = Some lo ∧
                       series_max (col df kv.1) = Some hi ∧
                       normalized_score mc.2
                       = normalized_value (is_negative kv.1) lo hi (raw_value mc.2)) ∧
             normalize (col df kv.1) (is_negative kv.1) !! i
             = Some (normalized_score mc.2) ∧
             weighted_contribution mc.2 = (normalized_score mc.2 * weight mc.2)%Qc)
          nw (omap (metric_contribution df r) nw).
Proof.
  intros Hr. induction nw as [|kv nw IH]; intros Hcols; cbn [omap list_omap].
  - constructor.
  - destruct (metric_contribution_Some df i r kv Hr) as (lo & hi & Hlo & Hhi & ->).
    { apply Hcols. left. }
    constructor.
    + cbn [fst snd weight raw_value normalized_score weighted_contribution].
      split_and!; try done.
      * by exists lo, hi.
      * apply (normalize_lookup _ _ lo hi i _ Hlo Hhi (col_lookup df kv.1 i r Hr)).
    + apply IH. intros kv' Hkv'. apply Hcols. by right.
Qed.

Lemma normalize_weights_columns df weights additional kv :
  kv ∈ normalize_weights (available_weights df weights additional) →
  kv.1 ∈ columns df.
Proof.
  intros Hkv.
  assert (kv.1 ∈ keys (normalize_weights (available_weights df weights additional)))
    as Hk by (apply list_elem_of_fmap; by exists kv).
  rewrite keys_normalize_weights in Hk.
  apply list_elem_of_fmap in Hk as ([m w] & -> & Hin).
  by apply available_weights_columns in Hin.
Qed.

(** *** The returned table *)

Lemma calculate_category_score_Scored df category weights additional result used :
  ret (calculate_category_score df category weights additional) = Scored result used →
  rows df ≠ [] ∧
  used = normalize_weights (available_weights df weights additional) ∧
  result = with_rank (sort_values (scored_rows df used)).
Proof.
  unfold calculate_category_score.
  destruct (rows df) as [|r0 rs] eqn:Hrows; [done |].
  destruct (available_weights df weights additional) as [|kv0 av] eqn:Hav; [done |].
  destruct (bool_decide _); [|done].
  cbn [ret]. by intros [= <- <-].
Qed.

Lemma result_scores_perm df nw :
  map (fun kr => score kr.2) (with_rank (sort_values (scored_rows df nw)))
  ≡ₚ weighted_scores df nw.
Proof.
  rewrite <-(map_map snd score), with_rank_snd.
  rewrite sort_values_perm. by rewrite scored_rows_scores.
Qed.

Lemma result_elem df nw k sr :
  (k, sr) ∈ with_rank (sort_values (scored_rows df nw)) → sr ∈ scored_rows df nw.
Proof.
  intros Hin. rewrite <-sort_values_perm.
  rewrite <-(with_rank_snd (sort_values (scored_rows df nw))).
  apply list_elem_of_fmap. by exists (k, sr).
Qed.

Lemma elem_result df nw sr :
  sr ∈ scored_rows df nw →
  ∃ k, (k, sr) ∈ with_rank (sort_values (scored_rows df nw)).
Proof.
  intros Hin. rewrite <-sort_values_perm in Hin.
  rewrite <-(with_rank_snd (sort_values (scored_rows df nw))) in Hin.
  apply list_elem_of_fmap in Hin as ([k sr'] & -> & Hin). by exists k.
Qed.

Lemma length_result df nw :
  length (with_rank (sort_values (scored_rows df nw))) = length (rows df).
Proof.
  rewrite <-(length_map snd), with_rank_snd.
  by rewrite sort_values_perm, length_scored_rows.
Qed.

End ScorerFacts.

(** ** The scorer: the claims *)

(** C5. Min-max normalisation gives exactly 50 to every element of a column
    whose minimum equals its maximum: a column of equal values, a column of
    one value. For a negative-polarity metric the scale is inverted:
    [0, 10] becomes [100, 0]; and [5, 5, 5] becomes [50, 50, 50]. *)
Theorem normalize_no_variance_is_fifty :
  (∀ l neg, Scorer.series_min l = Scorer.series_max l →
     Scorer.normalize l neg = map (fun _ => Scorer.fifty) l) ∧
  (∀ x l neg, (∀ y, y ∈ l → y = x) →
     Scorer.normalize l neg = map (fun _ => Scorer.fifty) l) ∧
  (∀ x neg, Scorer.normalize [x] neg = [Scorer.fifty]) ∧
  Scorer.normalize [0%Qc; Qc_of_Z 10] true = [Scorer.hundred; 0%Qc] ∧
  Scorer.normalize [Qc_of_Z 5; Qc_of_Z 5; Qc_of_Z 5] false
  = [Scorer.fifty; Scorer.fifty; Scorer.fifty] ∧
  Scorer.fifty = Qc_of_Z 50 ∧ Scorer.hundred = Qc_of_Z 100.
Proof.
  split_and!.
  - intros l neg Heq. destruct (Scorer.series_min l) as [lo|] eqn:Hlo.
    + by apply (normalize_no_variance l neg lo).
    + by destruct l.
  - intros x l neg Hall. destruct l as [|y l]; [done |].
    destruct (series_extremes_constant x (y :: l)) as [Hlo Hhi]; [done | done |].
    by apply (normalize_no_variance _ neg x).
  - intros x neg. by apply (normalize_no_variance [x] neg x).
  - apply (bool_decide_unpack _). vm_compute. exact I.
  - apply (bool_decide_unpack _). vm_compute. exact I.
  - by apply Qc_is_canon.
  - by apply Qc_is_canon.
Qed.

Lemma normalize_no_variance_is_fifty_witness :
  Scorer.normalize [Qc_of_Z 7; Qc_of_Z 7] true = [Scorer.fifty; Scorer.fifty] ∧
  Scorer.normalize [Qc_of_Z 3; Qc_of_Z 3; Qc_of_Z 3] false
  = [Scorer.fifty; Scorer.fifty; Scorer.fifty].
Proof.
  destruct normalize_no_variance_is_fifty as (Hminmax & Hequal & _).
  split.
  - apply (Hminmax [Qc_of_Z 7; Qc_of_Z 7] true).
    apply (bool_decide_unpack _). vm_compute. exact I.
  - apply (Hequal (Qc_of_Z 3) [Qc_of_Z 3; Qc_of_Z 3; Qc_of_Z 3] false).
    intros y Hy. repeat (apply elem_of_cons in Hy as [->|Hy]; [reflexivity |]).
    by apply elem_of_nil in Hy.
Defined.

(** C7. When no weight, preset or additional, names a column of the player
    table, [calculate_category_score] returns the empty frame: no ranked
    table and no exception. For a non-empty population the message
    "No valid metrics found for <category>" is the only thing it emits. *)
Theorem no_matching_weight_gives_no_ranking
    (df : Scorer.frame) (category : string)
    (weights additional_metrics : list (string * Qc)) :
  (∀ m, m ∈ PyDict.keys weights ++ PyDict.keys additional_metrics →
     m ∉ Scorer.columns df) →
  Scorer.ret (Scorer.calculate_category_score df category weights additional_metrics)
  = Scorer.EmptyFrame ∧
  (Scorer.rows df ≠ [] →
   Scorer.warnings (Scorer.calculate_category_score df category weights additional_metrics)
   = [Scorer.no_valid_metrics category]).
Proof.
  intros Hnone. unfold Scorer.calculate_category_score.
  rewrite (available_weights_nil df weights additional_metrics Hnone).
  by destruct (Scorer.rows df).
Qed.

Lemma no_matching_weight_gives_no_ranking_witness :
  Scorer.calculate_category_score Examples.three_players "Attacking Score"
    Examples.foreign_weights []
  = {| Scorer.warnings := ["No valid metrics found for Attacking Score"];
       Scorer.ret := Scorer.EmptyFrame |}.
Proof.
  destruct (no_matching_weight_gives_no_ranking Examples.three_players
              "Attacking Score" Examples.foreign_weights []) as [Hret Hwarn].
  - intros m Hm. apply (bool_decide_unpack _).
    repeat (apply elem_of_cons in Hm as [->|Hm]; [vm_compute; exact I |]).
    by apply elem_of_nil in Hm.
  - specialize (Hwarn ltac:(discriminate)).
    destruct (Scorer.calculate_category_score _ _ _ _) as [w r].
    cbn [Scorer.ret Scorer.warnings] in *. by subst.
Defined.




(** C8. For every player of the frame, the breakdown of
    [get_metric_contributions] has one entry per normalised weight of the
    full pass, in the same order, with that weight, the raw value of the
    player, the normalised score the full pass computes for the player from
    the same column minimum and maximum, and their product as the weighted
    contribution; the contributions sum to the composite score of the
    player, which is the score of the player's row in the returned table. *)
Theorem contributions_match_full_pass
    (df : Scorer.frame) (i : nat) (r : Scorer.row) (category : string)
    (weights additional_metrics : list (string * Qc)) :
  Scorer.rows df !! i = Some r →
  let used :=
    Scorer.normalize_weights (Scorer.available_weights df weights additional_metrics) in
  ∃ contributions,
    Scorer.get_metric_contributions df i category weights additional_metrics
    = Some contributions ∧
    Forall2 (fun kv mc =>
               mc.1 = kv.1 ∧ Scorer.weight mc.2 = kv.2 ∧
               Scorer.raw_value mc.2 = default 0%Qc (Scorer.nums r !! kv.1) ∧
               (∃ lo hi, Scorer.series_min (Scorer.col df kv.1) = Some lo ∧
                         Scorer.series_max (Scorer.col df kv.1) = Some hi ∧
                         Scorer.normalized_score mc.2
                         = Scorer.normalized_value (Scorer.is_negative kv.1) lo hi
                             (Scorer.raw_value mc.2)) ∧
               Scorer.normalize (Scorer.col df kv.1) (Scorer.is_negative kv.1) !! i
               = Some (Scorer.normalized_score mc.2) ∧
               Scorer.weighted_contribution mc.2
               = (Scorer.normalized_score mc.2 * Scorer.weight mc.2)%Qc)
            used contributions ∧
    Scorer.weighted_scores df used !! i
    = Some (foldl Qcplus 0%Qc
              (map (fun mc => Scorer.weighted_contribution mc.2) contributions)) ∧
    ∀ result nw,
      Scorer.ret (Scorer.calculate_category_score df category weights additional_metrics)
      = Scorer.Scored result nw →
      nw = used ∧
      ∃ k sr, (k, sr) ∈ result ∧ Scorer.base sr = r ∧
        Scorer.score sr
        = foldl Qcplus 0%Qc
            (map (fun mc => Scorer.weighted_contribution mc.2) contributions).
Proof.
  intros Hr used.
  exists (omap (Scorer.metric_contribution df r) used). split_and!.
  - unfold Scorer.get_metric_contributions. fold used. rewrite Hr.
    by destruct used.
  - apply (contributions_follow_weights df used i r Hr).
    intros kv Hkv. by apply (normalize_weights_columns df weights additional_metrics).
  - by apply weighted_scores_lookup.
  - intros result nw (_ & -> & ->)%calculate_category_score_Scored.
    fold used. split; [done |].
    destruct (scored_rows_lookup df used i r Hr) as (s & Hs & Hsr).
    rewrite (weighted_scores_lookup df used i r Hr) in Hs. injection Hs as <-.
    apply list_elem_of_lookup_2 in Hsr.
    destruct (elem_result df used _ Hsr) as [k Hk].
    eexists k, _. by split; [exact Hk |].
Qed.

Lemma contributions_match_full_pass_witness :
  ∃ contributions,
    Scorer.get_metric_contributions Examples.three_players 1 "Attacking Score"
      Examples.doubled_weights [] = Some contributions ∧
    Scorer.weighted_scores Examples.three_players
      (Scorer.normalize_weights
         (Scorer.available_weights Examples.three_players Examples.doubled_weights []))
      !! 1%nat
    = Some (foldl Qcplus 0%Qc
              (map (fun mc => Scorer.weighted_contribution mc.2) contributions)).
Proof.
  destruct (contributions_match_full_pass Examples.three_players 1
              (Examples.score_row "b" 2 0) "Attacking Score"
              Examples.doubled_weights [])
    as (contributions & Hget & _ & Hsum & _); [reflexivity |].
  by exists contributions.
Defined.

(** For the Goal values 1, 2 and 3 with weight 1 on Goal only, the scores
    are 0, 50 and 100; the returned table lists them from the best, with
    the percentiles 100, 66.67 and 33.33, whereas the shares of players
    with a strictly lower score are 66.67, 33.33 and 0. *)
Lemma percentile_is_not_the_strictly_lower_share :
  ∃ result used,
    Scorer.ret (Scorer.calculate_category_score Examples.three_players
                  "Attacking Score" Examples.goal_only [])
    = Scorer.Scored result used ∧
    let scores := map (fun kr => Scorer.score kr.2) result in
    map (fun kr => (kr.1, Scorer.texts (Scorer.base kr.2) !! "Player Name",
                    Scorer.score kr.2, Scorer.percentile kr.2)) result
    = [ (1%nat, Some "c", Scorer.hundred, Scorer.hundred);
        (2%nat, Some "b", Scorer.fifty, Q2Qc (200 # 3));
        (3%nat, Some "a", 0%Qc, Q2Qc (100 # 3)) ] ∧
    map (fun s => (Scorer.Qc_of_nat (Scorer.count_lt s scores)
                   / Scorer.Qc_of_nat (length scores) * Scorer.hundred)%Qc) scores
    = [ Q2Qc (200 # 3); Q2Qc (100 # 3); 0%Qc ] ∧
    Scorer.hundred ≠ Q2Qc (200 # 3).
Proof.
  eexists _, _. split; [vm_compute; reflexivity |].
  cbn zeta. split_and!.
  - apply (bool_decide_unpack _). vm_compute. exact I.
  - apply (bool_decide_unpack _). vm_compute. exact I.
  - discriminate.
Qed.

(** C1, as the code has it. For every request that returns a ranked table,
    the table has one row per player and the percentile of each row is the
    average rank of its score among the scores of the table, divided by the
    number of players, times 100; the average rank of a score is the count
    of strictly lower scores plus half of one more than the count of scores
    equal to it. A score that no other player shares thus gets
    (count of strictly lower scores + 1) / n * 100. *)
Theorem percentile_is_average_rank
    (df : Scorer.frame) (category : string)
    (weights additional_metrics : list (string * Qc))
    (result : list (nat * Scorer.scored_row)) (used : list (string * Qc)) :
  Scorer.ret (Scorer.calculate_category_score df category weights additional_metrics)
  = Scorer.Scored result used →
  let scores := map (fun kr => Scorer.score kr.2) result in
  result ≠ [] ∧
  length result = length (Scorer.rows df) ∧
  ∀ k sr, (k, sr) ∈ result →
    Scorer.percentile sr
    = ((Scorer.Qc_of_nat (Scorer.count_lt (Scorer.score sr) scores)
        + (Scorer.Qc_of_nat (Scorer.count_eq (Scorer.score sr) scores) + 1) / (1 + 1))
       / Scorer.Qc_of_nat (length result) * Scorer.hundred)%Qc ∧
    (Scorer.count_eq (Scorer.score sr) scores = 1%nat →
     Scorer.percentile sr
     = ((Scorer.Qc_of_nat (Scorer.count_lt (Scorer.score sr) scores) + 1)
        / Scorer.Qc_of_nat (length result) * Scorer.hundred)%Qc).
Proof.
  intros (Hrows & -> & ->)%calculate_category_score_Scored scores.
  set (used := Scorer.normalize_weights
                 (Scorer.available_weights df weights additional_metrics)) in *.
  assert (length (Scorer.with_rank (Scorer.sort_values (Scorer.scored_rows df used)))
          = length (Scorer.rows df)) as Hlen by apply length_result.
  split_and!; [| done |].
  { intros Hnil. rewrite Hnil in Hlen. by destruct (Scorer.rows df). }
  intros k sr Hin.
  assert (Scorer.percentile sr
    = ((Scorer.Qc_of_nat (Scorer.count_lt (Scorer.score sr) scores)
        + (Scorer.Qc_of_nat (Scorer.count_eq (Scorer.score sr) scores) + 1) / (1 + 1))
       / Scorer.Qc_of_nat
           (length (Scorer.with_rank (Scorer.sort_values (Scorer.scored_rows df used))))
       * Scorer.hundred)%Qc) as Hpct.
  { pose proof (result_scores_perm df used) as Hperm. fold scores in Hperm.
    apply result_elem in Hin.
    destruct (scored_rows_elem df used sr Hin) as (i & r & _ & _ & Hs & ->).
    rewrite average_rank_value by (by eapply list_elem_of_lookup_2).
    rewrite (count_lt_perm _ _ _ Hperm), (count_eq_perm _ _ _ Hperm).
    by rewrite Hlen, length_weighted_scores. }
  split; [done |].
  intros Hone. rewrite Hpct, Hone.
  by assert ((Scorer.Qc_of_nat 1 + 1) / (1 + 1) = 1)%Qc as -> by (by apply Qc_is_canon).
Qed.

Lemma percentile_is_average_rank_witness :
  ∃ result used,
    Scorer.ret (Scorer.calculate_category_score Examples.three_players
                  "Attacking Score" Examples.goal_only [])
    = Scorer.Scored result used ∧
    length result = 3%nat.
Proof.
  eexists _, _. split; [vm_compute; reflexivity |].
  by destruct (percentile_is_average_rank Examples.three_players
              "Attacking Score" Examples.goal_only [] _ _ eq_refl)
    as (_ & Hlen & _).
Defined.

(** ** Identity resolution, the summary and the export *)

Section ResolutionFacts.
Import PyDict Combiner.

Lemma team_checked_entry team k (d : stats_dict) stats :
  team_checked team (dict_get k d) = Some stats →
  (k, stats) ∈ d ∧ get stats "Team" = PStr team.
Proof.
  intros [Hget Hteam]%team_checked_Some. split; [|done].
  by apply dict_get_Some_elem.
Qed.

Lemma team_checked_None team k (d : stats_dict) stats :
  team_checked team (dict_get k d) = None → (k, stats) ∈ d →
  NoDup (keys d) → get stats "Team" ≠ PStr team.
Proof.
  intros Hnone Hin Hnd. rewrite (elem_dict_get k stats d Hnd Hin) in Hnone.
  cbn [team_checked] in Hnone. by destruct (decide _).
Qed.

(** What each tier tells about the key of the record it returns. *)
Lemma find_player_stats_key d p stats t :
  find_player_stats d p = (Some stats, t) →
  ∃ k, (k, stats) ∈ d ∧ get stats "Team" = PStr (team_name p) ∧
    match t with
    | exact_fullname_team => k = fullName p
    | exact_name_team => k = name p
    | clean_fullname_team => clean_name k = clean_name (fullName p)
    | clean_name_team =>
        clean_name k = clean_name (name p) ∧
        clean_name k ≠ clean_name (fullName p)
    | no_match => False
    end.
Proof.
  unfold find_player_stats.
  destruct (team_checked _ (dict_get (fullName p) d)) as [s1|] eqn:H1.
  { intros [= <- <-]. apply team_checked_entry in H1 as [??]. by eexists. }
  destruct (team_checked _ (dict_get (name p) d)) as [s2|] eqn:H2.
  { intros [= <- <-]. apply team_checked_entry in H2 as [??]. by eexists. }
  intros (k & Hin & [Hteam Hname] & ->)%clean_scan_Some.
  exists k. split_and!; [done | done |].
  unfold clean_tag. cbn [fst snd] in *.
  destruct (decide _) as [Heq|Hne]; [done |]. by destruct Hname.
Qed.

Lemma find_player_stats_candidate d p stats t :
  find_player_stats d p = (Some stats, t) →
  ∃ k, (k, stats) ∈ d ∧ clean_candidate p (k, stats).
Proof.
  intros (k & Hin & Hteam & Ht)%find_player_stats_key.
  exists k. split; [done |]. split; [done |]. cbn [fst].
  destruct t; naive_solver.
Qed.

Lemma find_player_stats_None d p t :
  find_player_stats d p = (None, t) →
  t = no_match ∧ ∀ e, e ∈ d → ¬ clean_candidate p e.
Proof.
  unfold find_player_stats.
  destruct (team_checked _ (dict_get (fullName p) d)); [done |].
  destruct (team_checked _ (dict_get (name p) d)); [done |].
  apply clean_scan_None.
Qed.

(** *** The counters *)

Lemma tag_contains_team t : t ≠ no_match → PyStr.contains "team" (tag t) = true.
Proof. by destruct t. Qed.

Lemma tally_found d p sm :
  let found := find_player_stats d p in
  let sm' := tally p found sm in
  non_team_matches sm' = non_team_matches sm ∧
  (team_validated_matches sm' + matched_count sm
   = team_validated_matches sm + matched_count sm')%nat ∧
  matched_count sm' = ((if is_matched found then 1 else 0) + matched_count sm)%nat ∧
  length (unmatched_players sm')
  = ((if is_matched found then 0 else 1) + length (unmatched_players sm))%nat.
Proof.
  cbn zeta. unfold tally.
  destruct (is_matched (find_player_stats d p)) eqn:Hm.
  - destruct (find_player_stats d p) as [[stats|] t] eqn:Hfind; [|done].
    destruct (find_player_stats_team _ _ _ _ Hfind) as [_ Ht].
    cbn [snd]. rewrite (tag_contains_team t Ht). cbn. split_and!; try done; lia.
  - cbn. split_and!; try done. rewrite length_app. cbn. lia.
Qed.

Lemma tally_loop d players sm :
  let sm' := foldl (fun sm p => tally p (find_player_stats d p) sm) sm players in
  non_team_matches sm' = non_team_matches sm ∧
  (team_validated_matches sm' + matched_count sm
   = team_validated_matches sm + matched_count sm')%nat ∧
  matched_count sm'
  = (length (filter (fun p => is_matched (find_player_stats d p)) players)
     + matched_count sm)%nat ∧
  (matched_count sm' + length (unmatched_players sm')
   = matched_count sm + length (unmatched_players sm) + length players)%nat.
Proof.
  revert sm. induction players as [|p players IH]; intros sm; cbn [foldl].
  - cbn. split_and!; try done; lia.
  - destruct (IH (tally p (find_player_stats d p) sm)) as (H1 & H2 & H3 & H4).
    destruct (tally_found d p sm) as (T1 & T2 & T3 & T4).
    cbn zeta in *.
    destruct (is_matched (find_player_stats d p)) eqn:Hm.
    + rewrite filter_cons_True by (by rewrite Hm). cbn [length].
      split_and!; lia.
    + rewrite filter_cons_False by (rewrite Hm; intros []). cbn [length].
      split_and!; lia.
Qed.

(** *** The keys of a combined row *)

Lemma dom_foldl_insert (f : string → pyval) cols (row : gmap string pyval) :
  dom (foldl (fun acc col => <[col := f col]> acc) row cols)
  = dom row ∪ list_to_set cols.
Proof.
  revert row. induction cols as [|c cols IH]; intros row; cbn [foldl].
  - cbn. set_solver.
  - rewrite IH, dom_insert_L. cbn. set_solver.
Qed.

Lemma dom_combined_row p stats :
  dom (combined_row p stats) = list_to_set output_header.
Proof.
  unfold combined_row, add_statistics.
  rewrite (dom_foldl_insert
             (fun col => if decide (get stats col = PStr "") then PInt 0
                         else if decide (get stats col = PNone) then PInt 0
                         else get stats col)).
  unfold output_header. rewrite list_to_set_app_L. f_equal.
  all: rewrite !dom_insert_L, dom_empty_L; cbn; set_solver.
Qed.

Lemma dict_to_list_combined_row p stats :
  dict_to_list output_header (combined_row p stats)
  = Some (map (fun k => default (PStr "") (combined_row p stats !! k)) output_header).
Proof.
  unfold dict_to_list. rewrite decide_True; [done |].
  by rewrite dom_combined_row.
Qed.

Lemma combine_data_Some players d rows sm :
  combine_data players d = Some (rows, sm) →
  players ≠ [] ∧ d ≠ [] ∧
  rows = map (fun p => combined_row p (stats_of (find_player_stats d p))) players ∧
  sm = foldl (fun sm p => tally p (find_player_stats d p) sm) summary0 players.
Proof.
  unfold combine_data. destruct players as [|p0 players]; [done |].
  destruct d as [|e d]; [done |].
  rewrite combine_loop. cbn [app]. by intros [= <- <-].
Qed.

Lemma export_combined_rows d players :
  export_to_csv (map (fun p => combined_row p (stats_of (find_player_stats d p))) players)
  = Some (map (fun p =>
                 map (fun k => default (PStr "")
                                 (combined_row p (stats_of (find_player_stats d p)) !! k))
                     output_header) players).
Proof.
  unfold export_to_csv. apply mapM_Some.
  induction players as [|p players IH]; cbn [map]; constructor; [|done].
  apply dict_to_list_combined_row.
Qed.

(** *** Loading the statistics *)

Lemma elem_of_dict_set {V} k (v : V) d e :
  e ∈ dict_set k v d → e = (k, v) ∨ e ∈ d.
Proof.
  induction d as [|[k' v'] d IH]; cbn [dict_set].
  - intros ->%list_elem_of_singleton. by left.
  - destruct (decide (k' = k)) as [->|Hne].
    + intros [->|Hin]%elem_of_cons; [by left | right; by right].
    + intros [->|Hin]%elem_of_cons; [right; left |].
      destruct (IH Hin) as [->|?]; [by left | right; by right].
Qed.

Lemma load_rows_entries rows d k row :
  (k, row) ∈ (load_rows rows d).1 →
  (k, row) ∈ d ∨ (k ≠ "" ∧ row !! "Player Name" = Some (PStr k) ∧ row ∈ rows).
Proof.
  revert d. induction rows as [|r rows IH]; intros d; cbn [load_rows].
  - cbn. by left.
  - destruct (r !! "Player Name") as [[s| |]|] eqn:Hr; cbn [truthy fst].
    + destruct (negb (bool_decide (s = ""))) eqn:Hs.
      * intros [Hin|(? & ? & ?)]%IH.
        -- apply elem_of_dict_set in Hin as [[= -> ->]|Hin]; [|by left].
           right. split_and!; [|done|left].
           apply negb_true_iff, bool_decide_eq_false in Hs. done.
        -- right. split_and!; [done | done | by right].
      * intros [Hin|(? & ? & ?)]%IH; [by left |].
        right. split_and!; [done | done | by right].
    + intros [Hin|(? & ? & ?)]%IH; [by left |].
      right. split_and!; [done | done | by right].
    + intros [Hin|(? & ? & ?)]%IH; [by left |].
      right. split_and!; [done | done | by right].
    + cbn. by left.
Qed.

Lemma load_player_stats_entries_are_named_rows_aux rows k row :
  (k, row) ∈ (load_player_stats rows).1 →
  k ≠ "" ∧ row !! "Player Name" = Some (PStr k) ∧ row ∈ rows.
Proof.
  unfold load_player_stats.
  intros [Hin|?]%load_rows_entries; [|done]. by apply elem_of_nil in Hin.
Qed.

(** The loop over a list of rows split in two. *)
Lemma load_rows_app pre post d :
  load_rows (pre ++ post) d
  = if (load_rows pre d).2 then load_rows post (load_rows pre d).1
    else load_rows pre d.
Proof.
  revert d. induction pre as [|r pre IH]; intros d; cbn [app load_rows]; [done |].
  destruct (r !! "Player Name") as [[s| |]|]; cbn [snd]; try apply IH; [|done].
  destruct (truthy _); apply IH.
Qed.

Lemma load_rows_ok rows d :
  (load_rows rows d).2 = true ↔ ∀ row, row ∈ rows → is_Some (row !! "Player Name").
Proof.
  revert d. induction rows as [|r rows IH]; intros d; cbn [load_rows].
  - split; [|done]. by intros _ row ?%elem_of_nil.
  - destruct (r !! "Player Name") as [v|] eqn:Hr.
    + assert ((load_rows rows d).2 = true ↔
              ∀ row, row ∈ r :: rows → is_Some (row !! "Player Name")) as Hd.
      { rewrite IH. split.
        - intros Hall row [->|Hin]%elem_of_cons; [by rewrite Hr | by apply Hall].
        - intros Hall row Hin. apply Hall. by right. }
      destruct v as [s| |]; [|done|done].
      destruct (truthy (PStr s)); [|done].
      rewrite IH. split.
      * intros Hall row [->|Hin]%elem_of_cons; [by rewrite Hr | by apply Hall].
      * intros Hall row Hin. apply Hall. by right.
    + cbn [snd]. split; [done |]. intros Hall.
      destruct (Hall r) as [? Hsome]; [left |]. by rewrite Hr in Hsome.
Qed.

Lemma load_rows_failure rows d d' :
  load_rows rows d = (d', false) →
  ∃ pre row post,
    rows = pre ++ row :: post ∧ row !! "Player Name" = None ∧
    load_rows pre d = (d', true).
Proof.
  revert d. induction rows as [|r rows IH]; intros d; cbn [load_rows]; [done |].
  assert (load_rows rows d = (d', false) →
          is_Some (r !! "Player Name") →
          (∀ d1, load_rows [r] d1 = (d, true) →
             ∃ pre row post, r :: rows = pre ++ row :: post ∧
               row !! "Player Name" = None ∧ load_rows pre d1 = (d', true))) as Hskip.
  { intros (pre & row & post & -> & Hrow & Hpre)%IH Hr d1 Hd1.
    exists (r :: pre), row, post. split_and!; [done | done |].
    change (r :: pre) with ([r] ++ pre). rewrite load_rows_app, Hd1. done. }
  destruct (r !! "Player Name") as [v|] eqn:Hr.
  - destruct v as [s| |].
    + destruct (truthy (PStr s)) eqn:Hs.
      * intros (pre & row & post & -> & Hrow & Hpre)%IH.
        exists (r :: pre), row, post. split_and!; [done | done |].
        cbn [load_rows]. by rewrite Hr, Hs.
      * intros (pre & row & post & -> & Hrow & Hpre)%IH.
        exists (r :: pre), row, post. split_and!; [done | done |].
        cbn [load_rows]. by rewrite Hr, Hs.
    + intros (pre & row & post & -> & Hrow & Hpre)%IH.
      exists (r :: pre), row, post. split_and!; [done | done |].
      cbn [load_rows]. by rewrite Hr.
    + intros (pre & row & post & -> & Hrow & Hpre)%IH.
      exists (r :: pre), row, post. split_and!; [done | done |].
      cbn [load_rows]. by rewrite Hr.
  - intros [= <-]. exists [], r, rows. by split_and!.
Qed.

(** *** Loading the roster *)

Lemma length_load_teams_info teams :
  length (load_teams_info teams)
  = foldr (fun t n => (length (players t) + n)%nat) 0%nat teams.
Proof.
  unfold load_teams_info. induction teams as [|t teams IH]; [done |].
  cbn [flat_map foldr]. by rewrite length_app, length_map, IH.
Qed.

Lemma elem_of_load_teams_info teams p :
  p ∈ load_teams_info teams ↔
  ∃ t q, t ∈ teams ∧ q ∈ players t ∧ p = with_team t q.
Proof.
  unfold load_teams_info. induction teams as [|t teams IH]; cbn [flat_map].
  - split; [by intros ?%elem_of_nil |]. by intros (? & ? & ?%elem_of_nil & _).
  - rewrite elem_of_app, IH, list_elem_of_fmap. split.
    + intros [(q & -> & Hq)|(t' & q & Ht' & Hq & ->)].
      * exists t, q. split_and!; [left | done | done].
      * exists t', q. split_and!; [by right | done | done].
    + intros (t' & q & [->|Ht']%elem_of_cons & Hq & ->).
      * left. by exists q.
      * right. by exists t', q.
Qed.

(** *** The whole run *)

Lemma load_teams_info_nonempty teams :
  load_teams_info teams ≠ [] ↔ ∃ t, t ∈ teams ∧ players t ≠ [].
Proof.
  split.
  - destruct (load_teams_info teams) as [|p l] eqn:Hl; [done |].
    intros _. assert (p ∈ load_teams_info teams) as Hp by (rewrite Hl; left).
    apply elem_of_load_teams_info in Hp as (t & q & Ht & Hq & _).
    exists t. split; [done |]. intros Hnil. rewrite Hnil in Hq.
    by apply elem_of_nil in Hq.
  - intros (t & Ht & Hne) Hnil.
    destruct (players t) as [|q l] eqn:Hq; [done |].
    assert (with_team t q ∈ load_teams_info teams) as Hin.
    { apply elem_of_load_teams_info. exists t, q. rewrite Hq.
      split_and!; [done | left | done]. }
    rewrite Hnil in Hin. by apply elem_of_nil in Hin.
Qed.

Lemma load_player_stats_nonempty rows :
  (load_player_stats rows).2 = true →
  (load_player_stats rows).1 ≠ [] ↔
  ∃ row s, row ∈ rows ∧ row !! "Player Name" = Some (PStr s) ∧ s ≠ "".
Proof.
  intros Hok. split.
  - destruct (load_player_stats rows).1 as [|[k row] l] eqn:Hl; [done |].
    intros _.
    destruct (load_player_stats_entries_are_named_rows_aux rows k row)
      as (Hk & Hrow & Hin); [rewrite Hl; left |].
    by exists row, k.
  - intros (row & s & Hin & Hrow & Hs) Hnil.
    pose proof (load_rows_get rows [] s Hok Hs) as Hget.
    fold (load_player_stats rows) in Hget. rewrite Hnil in Hget.
    cbn [dict_get] in Hget.
    assert (row ∈ filter (named s) rows) as Hf by (by apply list_elem_of_filter).
    destruct (filter (named s) rows) as [|r0 l _] using rev_ind;
      [by apply elem_of_nil in Hf |].
    by rewrite last_snoc in Hget.
Qed.

Lemma run_Some_inv teams rows lines :
  run (Some teams) (Some rows) = Some lines →
  (∃ t, t ∈ teams ∧ players t ≠ []) ∧
  (∀ row, row ∈ rows → is_Some (row !! "Player Name")) ∧
  (∃ row s, row ∈ rows ∧ row !! "Player Name" = Some (PStr s) ∧ s ≠ "").
Proof.
  unfold run. cbn zeta.
  destruct (load_player_stats rows).2 eqn:Hok; [|done].
  destruct (combine_data _ _) as [[combined sm]|] eqn:Hrun; [|done].
  destruct (combine_data_Some _ _ _ _ Hrun) as (Hp & Hd & _ & _).
  intros _. split_and!.
  - by apply load_teams_info_nonempty.
  - by apply (load_rows_ok rows []).
  - by apply load_player_stats_nonempty.
Qed.

Lemma run_is_Some teams rows :
  (∃ t, t ∈ teams ∧ players t ≠ []) →
  (∀ row, row ∈ rows → is_Some (row !! "Player Name")) →
  (∃ row s, row ∈ rows ∧ row !! "Player Name" = Some (PStr s) ∧ s ≠ "") →
  is_Some (run (Some teams) (Some rows)).
Proof.
  intros Ht%load_teams_info_nonempty Hall Hrow.
  assert ((load_player_stats rows).2 = true) as Hok
    by (by apply (load_rows_ok rows [])).
  apply (load_player_stats_nonempty rows Hok) in Hrow.
  unfold run. cbn zeta. rewrite Hok.
  unfold combine_data.
  destruct (load_teams_info teams) as [|p0 roster]; [done |].
  destruct (load_player_stats rows).1 as [|e d]; [done |].
  rewrite combine_loop. cbn [app map].
  pose proof (export_combined_rows (e :: d) (p0 :: roster)) as Hexp.
  cbn [map] in Hexp. rewrite Hexp. by eexists.
Qed.

End ResolutionFacts.

(** ** Properties of the merge pipeline *)

(** The verdict of the cascade. A record it returns is an entry of the
    pool with the team of the player, and the tier tells how its key
    relates to the player: equal to the full name, equal to the display
    name, equal after cleaning to the full name, or equal after cleaning to
    the display name only. When it returns no record the tier is
    [no_match] and no entry of the pool with the team of the player has a
    key that cleans to the cleaned full name or display name. *)
Theorem find_player_stats_verdict
    (d : list (string * gmap string pyval)) (p : Combiner.player) :
  match Combiner.find_player_stats d p with
  | (Some stats, t) =>
      ∃ k, (k, stats) ∈ d ∧
        Combiner.get stats "Team" = PStr (Combiner.team_name p) ∧
        match t with
        | Combiner.exact_fullname_team => k = Combiner.fullName p
        | Combiner.exact_name_team => k = Combiner.name p
        | Combiner.clean_fullname_team =>
            Combiner.clean_name k = Combiner.clean_name (Combiner.fullName p)
        | Combiner.clean_name_team =>
            Combiner.clean_name k = Combiner.clean_name (Combiner.name p) ∧
            Combiner.clean_name k ≠ Combiner.clean_name (Combiner.fullName p)
        | Combiner.no_match => False
        end
  | (None, t) =>
      t = Combiner.no_match ∧
      ∀ e, e ∈ d → ¬ Combiner.clean_candidate p e
  end.
Proof.
  destruct (Combiner.find_player_stats d p) as [[stats|] t] eqn:Hfind.
  - by apply find_player_stats_key.
  - by apply find_player_stats_None.
Qed.

(** The summary of the merge. Every match is counted as team-validated:
    the counter of matches without team validation stays 0. The matched
    count is the number of roster players for which a non-empty record was
    found, and matched and unmatched players add up to the roster. *)
Theorem combine_data_summary_counts
    (players : list Combiner.player) (d : list (string * gmap string pyval))
    (rows : list (gmap string pyval)) (sm : Combiner.summary) :
  Combiner.combine_data players d = Some (rows, sm) →
  Combiner.non_team_matches sm = 0%nat ∧
  Combiner.team_validated_matches sm = Combiner.matched_count sm ∧
  Combiner.matched_count sm
  = length (filter (fun p => Combiner.is_matched (Combiner.find_player_stats d p))
                   players) ∧
  (Combiner.matched_count sm + length (Combiner.unmatched_players sm)
   = length players)%nat.
Proof.
  intros (_ & _ & _ & ->)%combine_data_Some.
  destruct (tally_loop d players Combiner.summary0) as (H1 & H2 & H3 & H4).
  cbn zeta in *. cbn [Combiner.summary0 Combiner.non_team_matches
    Combiner.team_validated_matches Combiner.matched_count
    Combiner.unmatched_players length] in *.
  split_and!; lia.
Qed.

Lemma combine_data_summary_counts_witness :
  ∃ rows sm,
    Combiner.combine_data Examples.putra_roster Examples.putra_pool = Some (rows, sm) ∧
    Combiner.non_team_matches sm = 0%nat ∧
    (Combiner.matched_count sm + length (Combiner.unmatched_players sm) = 2)%nat.
Proof.
  eexists _, _. split.
  { unfold Combiner.combine_data, Examples.putra_roster, Examples.putra_pool.
    rewrite combine_loop. reflexivity. }
  refine (match combine_data_summary_counts Examples.putra_roster
                  Examples.putra_pool _ _ _ with
          | conj H1 (conj _ (conj _ H4)) => conj H1 H4
          end).
  unfold Combiner.combine_data, Examples.putra_roster, Examples.putra_pool.
  rewrite combine_loop. reflexivity.
Defined.

(** The rows of the merge fit the header of the export: the keys of every
    row are exactly the thirty columns of [output_header], so the writer
    refuses none of them and fills in none of their cells; it writes one
    line of thirty cells per roster player. *)
Theorem combined_rows_fit_the_header
    (players : list Combiner.player) (d : list (string * gmap string pyval))
    (rows : list (gmap string pyval)) (sm : Combiner.summary) :
  Combiner.combine_data players d = Some (rows, sm) →
  (∀ row, row ∈ rows → dom row = list_to_set Combiner.output_header) ∧
  ∃ lines,
    Combiner.export_to_csv rows = Some lines ∧
    length lines = length players ∧
    ∀ line, line ∈ lines → length line = 30%nat.
Proof.
  intros (_ & _ & -> & _)%combine_data_Some. split.
  - intros row (p & -> & _)%list_elem_of_fmap. apply dom_combined_row.
  - eexists. split; [apply export_combined_rows |].
    split; [by rewrite length_map |].
    intros line (p & -> & _)%list_elem_of_fmap. by rewrite length_map.
Qed.

Lemma combined_rows_fit_the_header_witness :
  ∃ rows sm lines,
    Combiner.combine_data Examples.putra_roster Examples.putra_pool = Some (rows, sm) ∧
    Combiner.export_to_csv rows = Some lines ∧ length lines = 2%nat.
Proof.
  assert (Combiner.combine_data Examples.putra_roster Examples.putra_pool
          = Some (map (fun p => Combiner.combined_row p
                                  (Combiner.stats_of
                                     (Combiner.find_player_stats Examples.putra_pool p)))
                      Examples.putra_roster,
                  foldl (fun sm p => Combiner.tally p
                                       (Combiner.find_player_stats Examples.putra_pool p) sm)
                        Combiner.summary0 Examples.putra_roster)) as Hrun.
  { unfold Combiner.combine_data, Examples.putra_roster, Examples.putra_pool.
    rewrite combine_loop. reflexivity. }
  destruct (combined_rows_fit_the_header _ _ _ _ Hrun)
    as (_ & lines & Hexp & Hlen & _).
  eexists _, _, lines. split; [exact Hrun |]. by split.
Defined.

(** Every entry of the loaded dictionary is a row of the file stored under
    its own, non-empty, player name. *)
Theorem load_player_stats_entries_are_named_rows
    (rows : list (gmap string pyval)) (k : string) (row : gmap string pyval) :
  (k, row) ∈ (Combiner.load_player_stats rows).1 →
  k ≠ "" ∧ row !! "Player Name" = Some (PStr k) ∧ row ∈ rows.
Proof.
  unfold Combiner.load_player_stats.
  intros [Hin|Hrow]%load_rows_entries.
  - by apply elem_of_nil in Hin.
  - exact Hrow.
Qed.

Lemma load_player_stats_entries_are_named_rows_witness :
  Examples.putra_row !! "Player Name" = Some (PStr "A. Putra") ∧
  Examples.putra_row ∈ Examples.putra_file.
Proof.
  destruct (load_player_stats_entries_are_named_rows Examples.putra_file
              "A. Putra" Examples.putra_row) as (_ & Hname & Hin).
  - vm_compute. left.
  - by split.
Defined.

(** The load succeeds exactly when every row has the player name column.
    When it fails, the dictionary is the one loaded from the rows that
    precede a row without that column. *)
Theorem load_player_stats_fails_at_a_row_without_name
    (rows : list (gmap string pyval)) :
  ((Combiner.load_player_stats rows).2 = true ↔
   ∀ row, row ∈ rows → is_Some (row !! "Player Name")) ∧
  ((Combiner.load_player_stats rows).2 = false →
   ∃ pre row post,
     rows = pre ++ row :: post ∧ row !! "Player Name" = None ∧
     (∀ r, r ∈ pre → is_Some (r !! "Player Name")) ∧
     Combiner.load_player_stats pre = ((Combiner.load_player_stats rows).1, true)).
Proof.
  unfold Combiner.load_player_stats. split; [apply load_rows_ok |].
  destruct (Combiner.load_rows rows []) as [d ok] eqn:Hload. cbn [fst snd].
  intros ->. destruct (load_rows_failure _ _ _ Hload)
    as (pre & row & post & -> & Hrow & Hpre).
  exists pre, row, post. split_and!; [done | done | | done].
  apply (load_rows_ok pre []). by rewrite Hpre.
Qed.

Lemma load_player_stats_fails_at_a_row_without_name_witness :
  ∃ pre row post,
    Examples.broken_file = pre ++ row :: post ∧ row !! "Player Name" = None ∧
    Combiner.load_player_stats pre
    = ((Combiner.load_player_stats Examples.broken_file).1, true).
Proof.
  destruct (load_player_stats_fails_at_a_row_without_name Examples.broken_file)
    as [_ Hfail].
  destruct Hfail as (pre & row & post & Hsplit & Hrow & _ & Hpre);
    [vm_compute; reflexivity |].
  by exists pre, row, post.
Defined.

(** [run] returns [True] exactly when both files load, some team has a
    player, every row of the statistics file has the player name column
    and some row has a non-empty player name. *)
Theorem run_succeeds_iff
    (teams_file : option (list Combiner.team))
    (stats_file : option (list (gmap string pyval))) :
  is_Some (Combiner.run teams_file stats_file) ↔
  ∃ teams rows,
    teams_file = Some teams ∧ stats_file = Some rows ∧
    (∃ t, t ∈ teams ∧ Combiner.players t ≠ []) ∧
    (∀ row, row ∈ rows → is_Some (row !! "Player Name")) ∧
    (∃ row s, row ∈ rows ∧ row !! "Player Name" = Some (PStr s) ∧ s ≠ "").
Proof.
  split.
  - destruct teams_file as [teams|]; [|by intros []].
    destruct stats_file as [rows|]; [|by intros []].
    intros [lines Hrun]. exists teams, rows.
    destruct (run_Some_inv _ _ _ Hrun) as (? & ? & ?). by split_and!.
  - intros (teams & rows & -> & -> & Ht & Hall & Hrow). by apply run_is_Some.
Qed.

(** When [run] returns [True] it has exported one line per player of the
    teams file, in the order of the file: thirty cells that start with the
    display name, the full name and the name of the team of the player. *)
Theorem run_exports_one_line_per_player
    (teams : list Combiner.team) (rows : list (gmap string pyval))
    (lines : list (list pyval)) :
  Combiner.run (Some teams) (Some rows) = Some lines →
  length lines
  = foldr (fun t n => (length (Combiner.players t) + n)%nat) 0%nat teams ∧
  Forall2 (fun p line =>
             length line = 30%nat ∧
             line !! 0%nat = Some (PStr (Combiner.name p)) ∧
             line !! 1%nat = Some (PStr (Combiner.fullName p)) ∧
             line !! 2%nat = Some (PStr (Combiner.team_name p)))
          (Combiner.load_teams_info teams) lines.
Proof.
  unfold Combiner.run. cbn zeta.
  destruct (Combiner.load_player_stats rows).2; [|done].
  destruct (Combiner.combine_data _ _) as [[combined sm]|] eqn:Hrun; [|done].
  destruct (combine_data_Some _ _ _ _ Hrun) as (Hp & Hd & -> & _).
  rewrite export_combined_rows.
  destruct (Combiner.load_teams_info teams) as [|p0 roster] eqn:Hl; [done |].
  rewrite <-Hl. intros Hlines.
  assert (lines
          = map (fun p =>
                   map (fun k =>
                          default (PStr "")
                            (Combiner.combined_row p
                               (Combiner.stats_of
                                  (Combiner.find_player_stats
                                     (Combiner.load_player_stats rows).1 p)) !! k))
                       Combiner.output_header)
                (Combiner.load_teams_info teams)) as ->.
  { rewrite Hl in Hlines |- *. symmetry. apply (inj Some). exact Hlines. }
  clear. split.
  - by rewrite length_map, length_load_teams_info.
  - induction (Combiner.load_teams_info teams) as [|p l IH]; cbn [map];
      constructor; [|done].
    destruct (combined_row_info p
                (Combiner.stats_of
                   (Combiner.find_player_stats (Combiner.load_player_stats rows).1 p)))
      as (HN & HP & HT).
    split; [by rewrite length_map |].
    unfold Combiner.output_header. cbn [app map lookup list_lookup].
    by rewrite HN, HP, HT.
Qed.

Lemma run_exports_one_line_per_player_witness :
  ∃ lines,
    Combiner.run (Some Examples.putra_teams) (Some Examples.putra_file) = Some lines ∧
    length lines = 2%nat.
Proof.
  destruct (run_is_Some Examples.putra_teams Examples.putra_file) as [lines Hrun].
  - exists {| Combiner.team_label := "FC ALPHA";
              Combiner.players := Examples.putra_roster |}.
    split; [left | discriminate].
  - intros row Hrow.
    repeat (apply elem_of_cons in Hrow as [->|Hrow]; [by eexists |]).
    by apply elem_of_nil in Hrow.
  - exists Examples.putra_row, "A. Putra". split_and!; [left | done | done].
  - destruct (run_exports_one_line_per_player _ _ _ Hrun) as [Hlen _].
    exists lines. split; [exact Hrun | exact Hlen].
Defined.

(** ** The scorer: order, range and ranks *)

Lemma Qc_eq_Qeq (x y : Qc) : x = y ↔ (x == y)%Q.
Proof. split; [by intros -> | apply Qc_is_canon]. Qed.

(** Linear arithmetic on [Qc], through the rationals it is made of. *)
Ltac qc_lin :=
  repeat match goal with
  | H : @eq Qc _ _ |- _ => apply Qc_eq_Qeq in H
  | H : ¬ @eq Qc _ _ |- _ => rewrite Qc_eq_Qeq in H
  | |- @eq Qc _ _ => apply Qc_eq_Qeq
  | |- ¬ @eq Qc _ _ => rewrite Qc_eq_Qeq
  end;
  unfold Qcle, Qclt, Qcminus, Qcplus, Qcopp, Qcmult, Q2Qc in *;
  cbn [this] in *;
  repeat match goal with
  | H : context [Qred ?q] |- _ => rewrite (Qred_correct q) in H
  | |- context [Qred ?q] => rewrite (Qred_correct q)
  end;
  lra.

Section ScorerOrderFacts.
Import PyDict Scorer.

Lemma Qc_min_le a b : (Qc_min a b ≤ a)%Qc ∧ (Qc_min a b ≤ b)%Qc.
Proof. unfold Qc_min. destruct (decide _); split; qc_lin. Qed.

Lemma Qc_max_ge a b : (a ≤ Qc_max a b)%Qc ∧ (b ≤ Qc_max a b)%Qc.
Proof. unfold Qc_max. destruct (decide _); split; qc_lin. Qed.

Lemma foldl_Qc_min_le a l :
  (foldl Qc_min a l ≤ a)%Qc ∧ ∀ y, y ∈ l → (foldl Qc_min a l ≤ y)%Qc.
Proof.
  revert a. induction l as [|x l IH]; intros a; cbn [foldl].
  - split; [qc_lin | by intros y ?%elem_of_nil].
  - destruct (IH (Qc_min a x)) as [H1 H2].
    destruct (Qc_min_le a x) as [Ha Hx]. split.
    + qc_lin.
    + intros y [->|Hy]%elem_of_cons; [qc_lin | by apply H2].
Qed.

Lemma foldl_Qc_max_ge a l :
  (a ≤ foldl Qc_max a l)%Qc ∧ ∀ y, y ∈ l → (y ≤ foldl Qc_max a l)%Qc.
Proof.
  revert a. induction l as [|x l IH]; intros a; cbn [foldl].
  - split; [qc_lin | by intros y ?%elem_of_nil].
  - destruct (IH (Qc_max a x)) as [H1 H2].
    destruct (Qc_max_ge a x) as [Ha Hx]. split.
    + qc_lin.
    + intros y [->|Hy]%elem_of_cons; [qc_lin | by apply H2].
Qed.

(** The extremes of a series bound every value of it. *)
Lemma series_min_le l lo x : series_min l = Some lo → x ∈ l → (lo ≤ x)%Qc.
Proof.
  destruct l as [|a l]; [done |]. cbn [series_min]. intros [= <-].
  destruct (foldl_Qc_min_le a l) as [H1 H2].
  intros [->|Hx]%elem_of_cons; [done | by apply H2].
Qed.

Lemma series_max_ge l hi x : series_max l = Some hi → x ∈ l → (x ≤ hi)%Qc.
Proof.
  destruct l as [|a l]; [done |]. cbn [series_max]. intros [= <-].
  destruct (foldl_Qc_max_ge a l) as [H1 H2].
  intros [->|Hx]%elem_of_cons; [done | by apply H2].
Qed.

Lemma foldl_Qc_min_elem a l : foldl Qc_min a l = a ∨ foldl Qc_min a l ∈ l.
Proof.
  revert a. induction l as [|x l IH]; intros a; cbn [foldl]; [by left |].
  destruct (IH (Qc_min a x)) as [->|Hin]; [|right; by right].
  unfold Qc_min. destruct (decide _); [by left | right; left].
Qed.

Lemma foldl_Qc_max_elem a l : foldl Qc_max a l = a ∨ foldl Qc_max a l ∈ l.
Proof.
  revert a. induction l as [|x l IH]; intros a; cbn [foldl]; [by left |].
  destruct (IH (Qc_max a x)) as [->|Hin]; [|right; by right].
  unfold Qc_max. destruct (decide _); [right; left | by left].
Qed.

Lemma series_min_elem l lo : series_min l = Some lo → lo ∈ l.
Proof.
  destruct l as [|a l]; [done |]. cbn [series_min]. intros [= <-].
  destruct (foldl_Qc_min_elem a l) as [->|Hin]; [left | by right].
Qed.

Lemma series_max_elem l hi : series_max l = Some hi → hi ∈ l.
Proof.
  destruct l as [|a l]; [done |]. cbn [series_max]. intros [= <-].
  destruct (foldl_Qc_max_elem a l) as [->|Hin]; [left | by right].
Qed.

(** *** The scaled value *)

Lemma frac_mono (lo hi v1 v2 : Qc) :
  (lo < hi)%Qc → (v1 ≤ v2)%Qc →
  ((v1 - lo) / (hi - lo) ≤ (v2 - lo) / (hi - lo))%Qc.
Proof.
  intros Hlt Hle. unfold Qcdiv. apply Qcmult_le_mono_nonneg_r.
  - apply Qclt_le_weak, Qcinv_pos. qc_lin.
  - qc_lin.
Qed.

Lemma frac_lo (lo hi : Qc) : ((lo - lo) / (hi - lo) = 0)%Qc.
Proof.
  assert (lo - lo = 0)%Qc as -> by ring. unfold Qcdiv. ring.
Qed.

Lemma frac_hi (lo hi : Qc) : (lo < hi)%Qc → ((hi - lo) / (hi - lo) = 1)%Qc.
Proof.
  intros Hlt. unfold Qcdiv. apply Qcmult_inv_r. qc_lin.
Qed.

Lemma frac_unit (lo hi v : Qc) :
  (lo < hi)%Qc → (lo ≤ v)%Qc → (v ≤ hi)%Qc →
  (0 ≤ (v - lo) / (hi - lo))%Qc ∧ ((v - lo) / (hi - lo) ≤ 1)%Qc.
Proof.
  intros Hlt Hlo Hhi. split.
  - rewrite <-(frac_lo lo hi). by apply frac_mono.
  - rewrite <-(frac_hi lo hi Hlt). by apply frac_mono.
Qed.

Lemma extremes_lt (lo hi v : Qc) :
  (lo ≤ v)%Qc → (v ≤ hi)%Qc → hi ≠ lo → (lo < hi)%Qc.
Proof. intros. qc_lin. Qed.

Lemma normalized_value_range neg (lo hi v : Qc) :
  (lo ≤ v)%Qc → (v ≤ hi)%Qc →
  (0 ≤ normalized_value neg lo hi v)%Qc ∧ (normalized_value neg lo hi v ≤ hundred)%Qc.
Proof.
  intros Hlo Hhi. unfold normalized_value.
  destruct (decide (hi = lo)) as [Heq|Hne]; [done |].
  destruct (frac_unit lo hi v) as [H0 H1]; [by eapply extremes_lt | done | done |].
  revert H0 H1. generalize ((v - lo) / (hi - lo))%Qc. intros t H0 H1.
  unfold hundred. destruct neg; split; qc_lin.
Qed.

Lemma normalized_value_mono (lo hi v1 v2 : Qc) :
  (lo < hi)%Qc → (v1 ≤ v2)%Qc →
  (normalized_value false lo hi v1 ≤ normalized_value false lo hi v2)%Qc ∧
  (normalized_value true lo hi v2 ≤ normalized_value true lo hi v1)%Qc.
Proof.
  intros Hlt Hle. unfold normalized_value.
  destruct (decide (hi = lo)) as [Heq|_].
  { rewrite Heq in Hlt. by apply (irreflexivity Qclt) in Hlt. }
  pose proof (frac_mono lo hi v1 v2 Hlt Hle) as Hm. revert Hm.
  generalize ((v1 - lo) / (hi - lo))%Qc, ((v2 - lo) / (hi - lo))%Qc.
  intros t1 t2 Hm. unfold hundred. split; qc_lin.
Qed.

Lemma normalized_value_mirror (lo hi v : Qc) :
  hi ≠ lo →
  normalized_value true lo hi v = (hundred - normalized_value false lo hi v)%Qc.
Proof. intros Hne. unfold normalized_value. by destruct (decide (hi = lo)). Qed.

(** *** Weights and scores *)

Lemma sum_values_cons (kv : string * Qc) (d : weight_dict) :
  sum_values (kv :: d) = (kv.2 + sum_values d)%Qc.
Proof. unfold sum_values, values. cbn [map]. apply foldl_Qcplus_cons. Qed.

(** The score of a player with 100 on every metric, accumulated as the
    loop accumulates it. *)
Lemma foldl_full_marks (a : Qc) (nw : weight_dict) :
  foldl (fun acc kv => (acc + hundred * kv.2)%Qc) a nw
  = (a + hundred * sum_values nw)%Qc.
Proof.
  revert a. induction nw as [|kv nw IH]; intros a; cbn [foldl].
  - unfold sum_values. cbn. ring.
  - rewrite IH, sum_values_cons. ring.
Qed.

(** [d.update(other)] and the filter on the columns, key by key. *)
Lemma dict_get_update {V} (d other : list (string * V)) m :
  NoDup (keys other) →
  dict_get m (dict_update d other)
  = match dict_get m other with Some w => Some w | None => dict_get m d end.
Proof.
  unfold dict_update. revert d.
  induction other as [|[k v] other IH]; intros d Hnd; cbn [foldl fst snd]; [done |].
  apply NoDup_cons in Hnd as [Hk Hnd]. cbn [fst snd] in Hk.
  rewrite (IH _ Hnd). cbn [dict_get].
  destruct (decide (k = m)) as [->|Hne].
  - apply dict_get_None in Hk. rewrite Hk. apply dict_get_set_eq.
  - by rewrite (dict_get_set_ne k m v d Hne).
Qed.

Lemma filter_ext_elem {A} (P1 P2 : A → Prop)
    `{∀ x, Decision (P1 x)} `{∀ x, Decision (P2 x)} (l : list A) :
  (∀ x, x ∈ l → P1 x ↔ P2 x) → filter P1 l = filter P2 l.
Proof.
  induction l as [|x l IH]; intros Hiff; [done |].
  assert (filter P1 l = filter P2 l) as Hl.
  { apply IH. intros y Hy. apply Hiff. by right. }
  destruct (decide (P1 x)) as [Hx|Hx].
  - rewrite !filter_cons_True; [by rewrite Hl | by apply Hiff; [left |] | done].
  - rewrite !filter_cons_False; [done | | done].
    intros Hx2. apply Hx, Hiff; [left | done].
Qed.

Lemma keys_dict_update_NoDup {V} (d other : list (string * V)) :
  NoDup (keys other) →
  keys (dict_update d other)
  = keys d ++ filter (fun k => k ∉ keys d) (keys other).
Proof.
  unfold dict_update. revert d.
  induction other as [|[k v] other IH]; intros d Hnd; cbn [foldl fst snd].
  { change (keys (@nil (string * V))) with (@nil string).
    by rewrite filter_nil, app_nil_r. }
  change (keys ((k, v) :: other)) with (k :: keys other) in *.
  apply NoDup_cons in Hnd as [Hk Hnd].
  rewrite (IH _ Hnd), keys_dict_set.
  destruct (decide (k ∈ keys d)) as [Hin|Hnin].
  - rewrite filter_cons_False by (intros Hn; by apply Hn). done.
  - rewrite filter_cons_True by done. rewrite <-app_assoc. cbn [app]. do 2 f_equal.
    apply filter_ext_elem.
    intros k' Hk'. rewrite not_elem_of_app, not_elem_of_cons.
    split; [by intros [? _] |]. intros Hd. split_and!; [done | | apply not_elem_of_nil].
    intros ->. done.
Qed.

Lemma dict_get_filter_keys {V} (cols : list string) (d : list (string * V)) m :
  dict_get m (filter (fun kv => kv.1 ∈ cols) d)
  = if decide (m ∈ cols) then dict_get m d else None.
Proof.
  induction d as [|[k v] d IH]; cbn [dict_get].
  { rewrite filter_nil. cbn [dict_get]. by destruct (decide (m ∈ cols)). }
  destruct (decide (k ∈ cols)) as [Hk|Hk].
  - rewrite filter_cons_True by done. cbn [dict_get].
    destruct (decide (k = m)) as [->|Hne]; [by destruct (decide (m ∈ cols)) | done].
  - rewrite filter_cons_False by done. rewrite IH.
    destruct (decide (k = m)) as [->|Hne]; [by destruct (decide (m ∈ cols)) | done].
Qed.

Lemma keys_filter_keys {V} (cols : list string) (d : list (string * V)) :
  keys (filter (fun kv => kv.1 ∈ cols) d) = filter (fun k => k ∈ cols) (keys d).
Proof.
  unfold keys. induction d as [|[k v] d IH]; [done |]. cbn [map fst].
  destruct (decide (k ∈ cols)) as [Hk|Hk].
  - rewrite !filter_cons_True by done. cbn [map fst]. by rewrite IH.
  - by rewrite !filter_cons_False by done.
Qed.

Lemma normalize_weights_nonneg (d : weight_dict) kv :
  (∀ kv, kv ∈ d → (0 ≤ kv.2)%Qc) → kv ∈ normalize_weights d → (0 ≤ kv.2)%Qc.
Proof.
  intros Hpos. unfold normalize_weights.
  destruct (decide (0 < sum_values d)%Qc) as [Hs|Hs]; [|by apply Hpos].
  intros (kv' & -> & Hin)%list_elem_of_fmap. cbn [snd]. unfold Qcdiv.
  apply Qcmult_nonneg_nonneg; [by apply Hpos |].
  by apply Qclt_le_weak, Qcinv_pos.
Qed.

(** The sum of the weighted contributions of a player lies between 0 and
    100 times the sum of the weights, when no weight is negative. *)
Lemma contributions_sum_range df i r (nw : weight_dict) :
  rows df !! i = Some r →
  (∀ kv, kv ∈ nw → kv.1 ∈ columns df ∧ (0 ≤ kv.2)%Qc) →
  (0 ≤ foldl Qcplus 0%Qc
         (map (fun mc => weighted_contribution mc.2)
              (omap (metric_contribution df r) nw)))%Qc ∧
  (foldl Qcplus 0%Qc
     (map (fun mc => weighted_contribution mc.2)
          (omap (metric_contribution df r) nw))
   ≤ hundred * sum_values nw)%Qc.
Proof.
  intros Hr. induction nw as [|kv nw IH]; intros Hnw; cbn [omap list_omap].
  - unfold sum_values. cbn. split; [done |]. unfold hundred. qc_lin.
  - destruct (Hnw kv) as [Hcol Hw]; [left |].
    destruct (metric_contribution_Some df i r kv Hr Hcol)
      as (lo & hi & Hlo & Hhi & ->).
    destruct IH as [IH0 IH1]; [intros kv' Hkv'; apply Hnw; by right |].
    cbn [map snd weighted_contribution].
    rewrite foldl_Qcplus_cons, sum_values_cons.
    pose proof (col_lookup df kv.1 i r Hr) as Hv.
    apply list_elem_of_lookup_2 in Hv.
    destruct (normalized_value_range (is_negative kv.1) lo hi
                (default 0%Qc (nums r !! kv.1))) as [Hn0 Hn1].
    { by apply (series_min_le (col df kv.1)). }
    { by apply (series_max_ge (col df kv.1)). }
    revert Hn0 Hn1.
    generalize (normalized_value (is_negative kv.1) lo hi
                  (default 0%Qc (nums r !! kv.1))).
    intros nv Hn0 Hn1.
    pose proof (Qcmult_nonneg_nonneg _ _ Hn0 Hw) as Hp0.
    pose proof (Qcmult_le_mono_nonneg_r _ _ _ Hw Hn1) as Hp1.
    rewrite Qcmult_plus_distr_r.
    revert IH0 IH1 Hp0 Hp1.
    generalize (nv * kv.2)%Qc, (hundred * kv.2)%Qc, (hundred * sum_values nw)%Qc.
    generalize (foldl Qcplus 0%Qc
                  (map (fun mc => weighted_contribution mc.2)
                       (omap (metric_contribution df r) nw))).
    intros s a b t IH0 IH1 Hp0 Hp1. split; qc_lin.
Qed.


(** *** Sorting *)

Lemma insert_desc_Forall (P : scored_row → Prop) r l :
  P r → Forall P l → Forall P (insert_desc r l).
Proof. intros Hr Hl. rewrite insert_desc_perm. by constructor. Qed.

Lemma insert_desc_sorted r l :
  StronglySorted (fun a b => (score b ≤ score a)%Qc) l →
  StronglySorted (fun a b => (score b ≤ score a)%Qc) (insert_desc r l).
Proof.
  induction 1 as [|r' l Hsorted IH Hall]; cbn [insert_desc].
  - repeat constructor.
  - destruct (decide (score r' ≤ score r)%Qc) as [Hle|Hgt].
    + constructor; [by constructor |]. constructor.
      * done.
      * eapply Forall_impl; [exact Hall |]. intros x Hx. cbn beta in *. qc_lin.
    + constructor; [done |]. apply insert_desc_Forall; [|done].
      cbn beta. qc_lin.
Qed.

Lemma sort_values_sorted l :
  StronglySorted (fun a b => (score b ≤ score a)%Qc) (sort_values l).
Proof.
  unfold sort_values. induction l as [|r l IH]; cbn [foldr]; [constructor |].
  by apply insert_desc_sorted.
Qed.

Lemma StronglySorted_lookup_le {A} (R : A → A → Prop) l i j a b :
  StronglySorted R l → (i < j)%nat → l !! i = Some a → l !! j = Some b → R a b.
Proof.
  intros Hsorted. revert i j.
  induction Hsorted as [|x l Hsorted IH Hall]; intros i j Hij Hi Hj; [done |].
  destruct j as [|j]; [lia |]. cbn in Hj.
  destruct i as [|i]; cbn in Hi.
  - injection Hi as <-. eapply Forall_forall; [exact Hall |].
    by eapply list_elem_of_lookup_2.
  - apply (IH i j); [lia | done | done].
Qed.

Lemma with_rank_lookup (l : list scored_row) i k r :
  with_rank l !! i = Some (k, r) ↔ k = S i ∧ l !! i = Some r.
Proof.
  unfold with_rank. rewrite lookup_zip_Some. cbn [fst snd].
  rewrite lookup_seq. split.
  - intros [[-> _] Hr]. by split.
  - intros [-> Hr]. split_and!; [done | | done].
    by eapply lookup_lt_Some.
Qed.

Lemma scored_rows_base df nw : map base (scored_rows df nw) = rows df.
Proof.
  apply list_eq. intros i. rewrite list_lookup_fmap.
  destruct (rows df !! i) as [r|] eqn:Hr.
  - by destruct (scored_rows_lookup df nw i r Hr) as (s & Hs & ->).
  - apply lookup_ge_None in Hr.
    by rewrite (proj2 (lookup_ge_None (scored_rows df nw) i))
      by (by rewrite length_scored_rows).
Qed.

(** *** Counting *)

Lemma Qc_of_nat_add a b : Qc_of_nat (a + b) = (Qc_of_nat a + Qc_of_nat b)%Qc.
Proof. by rewrite !Qc_of_nat_Z, Nat2Z.inj_add, Z2Qc_inj_add. Qed.

Lemma Qc_of_nat_le a b : (a ≤ b)%nat → (Qc_of_nat a ≤ Qc_of_nat b)%Qc.
Proof.
  intros Hle. rewrite !Qc_of_nat_Z.
  apply (proj1 (Z2Qc_inj_le (Z.of_nat a) (Z.of_nat b))). lia.
Qed.

Lemma Qc_of_nat_nonneg a : (0 ≤ Qc_of_nat a)%Qc.
Proof. rewrite <-Qc_of_nat_0. apply Qc_of_nat_le. lia. Qed.

Lemma Qc_of_nat_1 : Qc_of_nat 1 = 1%Qc.
Proof. by apply Qc_is_canon. Qed.

Lemma count_lt_eq_le x l : (count_lt x l + count_eq x l ≤ length l)%nat.
Proof.
  unfold count_lt, count_eq. induction l as [|y l IH]; [done |].
  destruct (decide (y < x)%Qc) as [Hlt|Hnlt].
  - rewrite filter_cons_True by done.
    rewrite (filter_cons_False (λ y, y = x))
      by (intros ->; by apply (irreflexivity Qclt) in Hlt).
    cbn [length]. lia.
  - rewrite filter_cons_False by done.
    destruct (decide (y = x)) as [Heq|Hne].
    + rewrite filter_cons_True by done. cbn [length]. lia.
    + rewrite filter_cons_False by done. cbn [length]. lia.
Qed.

(** The values below or equal to [x] are below every [y] above [x]. *)
Lemma count_lt_step x y l :
  (x < y)%Qc → (count_lt x l + count_eq x l ≤ count_lt y l)%nat.
Proof.
  intros Hxy. unfold count_lt, count_eq. induction l as [|z l IH]; [done |].
  destruct (decide (z < x)%Qc) as [Hlt|Hnlt].
  - rewrite (filter_cons_True (λ z, (z < x)%Qc)) by done.
    rewrite (filter_cons_False (λ z, z = x))
      by (intros ->; by apply (irreflexivity Qclt) in Hlt).
    rewrite (filter_cons_True (λ z, (z < y)%Qc)) by (by etrans).
    cbn [length]. lia.
  - rewrite (filter_cons_False (λ z, (z < x)%Qc)) by done.
    destruct (decide (z = x)) as [Heq|Hne].
    + rewrite (filter_cons_True (λ z, z = x)) by done.
      rewrite (filter_cons_True (λ z, (z < y)%Qc)) by (by rewrite Heq).
      cbn [length]. lia.
    + rewrite (filter_cons_False (λ z, z = x)) by done.
      destruct (decide (z < y)%Qc).
      * rewrite (filter_cons_True (λ z, (z < y)%Qc)) by done. cbn [length]. lia.
      * rewrite (filter_cons_False (λ z, (z < y)%Qc)) by done. lia.
Qed.

Lemma count_eq_pos x l : x ∈ l → (1 ≤ count_eq x l)%nat.
Proof.
  intros Hx. unfold count_eq.
  assert (x ∈ filter (λ y, y = x) l) as Hin by (by apply list_elem_of_filter).
  destruct (filter _ l); [by apply elem_of_nil in Hin | cbn; lia].
Qed.

Lemma half_times (x : Qc) : (x / (1 + 1) = x * Q2Qc (1 # 2))%Qc.
Proof. unfold Qcdiv. f_equal. all: by apply Qc_is_canon. Qed.

(** Dividing by a positive number keeps the order. *)
Lemma Qcdiv_le_mono (x y n : Qc) : (0 < n)%Qc → (x ≤ y)%Qc → (x / n ≤ y / n)%Qc.
Proof.
  intros Hn Hxy. unfold Qcdiv. apply Qcmult_le_mono_nonneg_r; [|done].
  by apply Qclt_le_weak, Qcinv_pos.
Qed.

Lemma Qcdiv_lt_mono (x y n : Qc) : (0 < n)%Qc → (x < y)%Qc → (x / n < y / n)%Qc.
Proof.
  intros Hn Hxy. unfold Qcdiv. apply Qcmult_lt_mono_pos_r; [|done].
  by apply Qcinv_pos.
Qed.

Lemma Qcdiv_same (n : Qc) : (0 < n)%Qc → (n / n = 1)%Qc.
Proof.
  intros Hn. unfold Qcdiv. apply Qcmult_inv_r.
  intros Heq. rewrite Heq in Hn. by apply (irreflexivity Qclt) in Hn.
Qed.

Lemma Qcdiv_zero (n : Qc) : (0 / n = 0)%Qc.
Proof. unfold Qcdiv. ring. Qed.

(** The rank percentile of a value of the series, from its two counts. *)
Lemma rank_percent_range x l :
  x ∈ l →
  (0 < average_rank x l / Qc_of_nat (length l) * hundred)%Qc ∧
  (average_rank x l / Qc_of_nat (length l) * hundred ≤ hundred)%Qc.
Proof.
  intros Hx. rewrite (average_rank_value x l Hx), half_times.
  pose proof (count_lt_eq_le x l) as Hle. pose proof (count_eq_pos x l Hx) as Hk.
  assert (0 < Qc_of_nat (length l))%Qc as Hn by (apply Qc_of_nat_pos; lia).
  apply Qc_of_nat_le in Hle, Hk. rewrite Qc_of_nat_add in Hle.
  rewrite Qc_of_nat_1 in Hk.
  pose proof (Qc_of_nat_nonneg (count_lt x l)) as Ha.
  revert Hle Hk Ha Hn.
  generalize (Qc_of_nat (count_lt x l)), (Qc_of_nat (count_eq x l)),
    (Qc_of_nat (length l)).
  intros a k n Hle Hk Ha Hn.
  assert (0 < a + (k + 1) * Q2Qc (1 # 2))%Qc as Hpos by qc_lin.
  assert (a + (k + 1) * Q2Qc (1 # 2) ≤ n)%Qc as Hmax by qc_lin.
  pose proof (Qcdiv_lt_mono _ _ n Hn Hpos) as H0.
  pose proof (Qcdiv_le_mono _ _ n Hn Hmax) as H1.
  rewrite Qcdiv_zero in H0. rewrite (Qcdiv_same n Hn) in H1.
  revert H0 H1. generalize ((a + (k + 1) * Q2Qc (1 # 2)) / n)%Qc.
  intros t H0 H1. unfold hundred. split; qc_lin.
Qed.

Lemma rank_percent_lt x y l :
  x ∈ l → y ∈ l → (x < y)%Qc →
  (average_rank x l / Qc_of_nat (length l) * hundred
   < average_rank y l / Qc_of_nat (length l) * hundred)%Qc.
Proof.
  intros Hx Hy Hxy.
  rewrite (average_rank_value x l Hx), (average_rank_value y l Hy), !half_times.
  pose proof (count_lt_step x y l Hxy) as Hstep.
  pose proof (count_eq_pos y l Hy) as Hk.
  assert (0 < Qc_of_nat (length l))%Qc as Hn.
  { apply Qc_of_nat_pos. destruct l; [by apply elem_of_nil in Hx | cbn; lia]. }
  apply Qc_of_nat_le in Hstep, Hk. rewrite Qc_of_nat_add in Hstep.
  rewrite Qc_of_nat_1 in Hk.
  pose proof (Qc_of_nat_nonneg (count_eq x l)) as Hkx.
  revert Hstep Hk Hkx Hn.
  generalize (Qc_of_nat (count_lt x l)), (Qc_of_nat (count_eq x l)),
    (Qc_of_nat (count_lt y l)), (Qc_of_nat (count_eq y l)), (Qc_of_nat (length l)).
  intros a k a' k' n Hstep Hk Hkx Hn.
  assert (a + (k + 1) * Q2Qc (1 # 2) < a' + (k' + 1) * Q2Qc (1 # 2))%Qc as Hlt
    by qc_lin.
  pose proof (Qcdiv_lt_mono _ _ n Hn Hlt) as Hd. revert Hd.
  generalize ((a + (k + 1) * Q2Qc (1 # 2)) / n)%Qc,
    ((a' + (k' + 1) * Q2Qc (1 # 2)) / n)%Qc.
  intros t t' Hd. unfold hundred. qc_lin.
Qed.

End ScorerOrderFacts.

(** ** Properties of the scorer *)

(** Every normalised value lies between 0 and 100. In a column with
    variance, a holder of the minimum gets 0 and a holder of the maximum
    100, and the other way round for a negative metric. *)
Theorem normalize_stays_within_0_and_100 (l : list Qc) (neg : bool) :
  (∀ y, y ∈ Scorer.normalize l neg → (0 ≤ y)%Qc ∧ (y ≤ Scorer.hundred)%Qc) ∧
  (∀ lo hi, Scorer.series_min l = Some lo → Scorer.series_max l = Some hi →
     hi ≠ lo →
     ∃ i j, l !! i = Some lo ∧ l !! j = Some hi ∧
       Scorer.normalize l neg !! i = Some (if neg then Scorer.hundred else 0%Qc) ∧
       Scorer.normalize l neg !! j = Some (if neg then 0%Qc else Scorer.hundred)).
Proof.
  split.
  - intros y [i Hy]%list_elem_of_lookup_1.
    destruct (lookup_lt_is_Some_2 l i) as [v Hv].
    { rewrite <-(length_normalize l neg). by eapply lookup_lt_Some. }
    destruct (series_extremes_is_Some l) as (lo & hi & Hlo & Hhi).
    { intros ->. done. }
    rewrite (normalize_lookup l neg lo hi i v Hlo Hhi Hv) in Hy.
    injection Hy as <-. apply list_elem_of_lookup_2 in Hv.
    apply normalized_value_range.
    + by apply (series_min_le l).
    + by apply (series_max_ge l).
  - intros lo hi Hlo Hhi Hne.
    destruct (list_elem_of_lookup_1 _ _ (series_min_elem l lo Hlo)) as [i Hi].
    destruct (list_elem_of_lookup_1 _ _ (series_max_elem l hi Hhi)) as [j Hj].
    exists i, j. split_and!; [done | done | |].
    + rewrite (normalize_lookup l neg lo hi i lo Hlo Hhi Hi). f_equal.
      unfold Scorer.normalized_value. rewrite decide_False by done.
      rewrite frac_lo. destruct neg; ring.
    + assert (lo < hi)%Qc as Hlt.
      { apply (extremes_lt lo hi hi); [|done|done].
        apply (series_min_le l); [done |]. by apply (series_max_elem l). }
      rewrite (normalize_lookup l neg lo hi j hi Hlo Hhi Hj). f_equal.
      unfold Scorer.normalized_value. rewrite decide_False by done.
      rewrite (frac_hi lo hi Hlt). destruct neg; ring.
Qed.

(** Normalisation keeps the order of the raw values for a positive metric
    and reverses it for a negative one; in a column with variance the
    negative scale is the positive one mirrored around 50. *)
Theorem normalize_keeps_or_reverses_the_order
    (l : list Qc) (i j : nat) (vi vj : Qc) :
  l !! i = Some vi → l !! j = Some vj → (vi ≤ vj)%Qc →
  ∃ pi pj ni nj,
    Scorer.normalize l false !! i = Some pi ∧
    Scorer.normalize l false !! j = Some pj ∧
    Scorer.normalize l true !! i = Some ni ∧
    Scorer.normalize l true !! j = Some nj ∧
    (pi ≤ pj)%Qc ∧ (nj ≤ ni)%Qc ∧
    (Scorer.series_max l ≠ Scorer.series_min l →
     ni = (Scorer.hundred - pi)%Qc ∧ nj = (Scorer.hundred - pj)%Qc).
Proof.
  intros Hi Hj Hle.
  destruct (series_extremes_is_Some l) as (lo & hi & Hlo & Hhi).
  { intros ->. done. }
  eexists _, _, _, _. split_and!.
  1-4: by apply (normalize_lookup l _ lo hi).
  - destruct (decide (hi = lo)) as [Heq|Hne].
    + unfold Scorer.normalized_value. rewrite !decide_True by done. done.
    + apply normalized_value_mono; [|done].
      apply (extremes_lt lo hi vi); [| |done].
      * apply (series_min_le l); [done |]. by eapply list_elem_of_lookup_2.
      * apply (series_max_ge l); [done |]. by eapply list_elem_of_lookup_2.
  - destruct (decide (hi = lo)) as [Heq|Hne].
    + unfold Scorer.normalized_value. rewrite !decide_True by done. done.
    + apply normalized_value_mono; [|done].
      apply (extremes_lt lo hi vi); [| |done].
      * apply (series_min_le l); [done |]. by eapply list_elem_of_lookup_2.
      * apply (series_max_ge l); [done |]. by eapply list_elem_of_lookup_2.
  - rewrite Hlo, Hhi. intros Hne.
    assert (hi ≠ lo) as Hne' by (by intros ->).
    split; by apply normalized_value_mirror.
Qed.

Lemma normalize_keeps_or_reverses_the_order_witness :
  ∃ pi pj ni nj,
    Scorer.normalize [Qc_of_Z 4; Qc_of_Z 9; Qc_of_Z 6] false !! 0%nat = Some pi ∧
    Scorer.normalize [Qc_of_Z 4; Qc_of_Z 9; Qc_of_Z 6] false !! 2%nat = Some pj ∧
    Scorer.normalize [Qc_of_Z 4; Qc_of_Z 9; Qc_of_Z 6] true !! 0%nat = Some ni ∧
    Scorer.normalize [Qc_of_Z 4; Qc_of_Z 9; Qc_of_Z 6] true !! 2%nat = Some nj ∧
    (pi ≤ pj)%Qc ∧ (nj ≤ ni)%Qc.
Proof.
  destruct (normalize_keeps_or_reverses_the_order
              [Qc_of_Z 4; Qc_of_Z 9; Qc_of_Z 6] 0 2 (Qc_of_Z 4) (Qc_of_Z 6))
    as (pi & pj & ni & nj & H1 & H2 & H3 & H4 & H5 & H6 & _).
  - reflexivity.
  - reflexivity.
  - vm_compute. discriminate.
  - exists pi, pj, ni, nj. by split_and!.
Defined.

(** An additional weight replaces the preset weight of its metric. The
    weight of a metric before normalisation is the additional one when
    there is one, the preset one otherwise, and none when the metric is
    not a column of the frame; the metrics come in the order of the
    preset, followed by the additional metrics the preset does not have. *)
Theorem additional_weights_override_presets
    (df : Scorer.frame) (weights additional_metrics : list (string * Qc)) :
  NoDup (PyDict.keys additional_metrics) →
  (∀ metric,
     PyDict.dict_get metric (Scorer.available_weights df weights additional_metrics)
     = if decide (metric ∈ Scorer.columns df)
       then match PyDict.dict_get metric additional_metrics with
            | Some w => Some w
            | None => PyDict.dict_get metric weights
            end
       else None) ∧
  PyDict.keys (Scorer.available_weights df weights additional_metrics)
  = filter (fun metric => metric ∈ Scorer.columns df)
      (PyDict.keys weights
       ++ filter (fun metric => metric ∉ PyDict.keys weights)
            (PyDict.keys additional_metrics)) ∧
  PyDict.keys (Scorer.normalize_weights
                 (Scorer.available_weights df weights additional_metrics))
  = PyDict.keys (Scorer.available_weights df weights additional_metrics).
Proof.
  intros Hnd. unfold Scorer.available_weights. split_and!.
  - intros metric.
    rewrite dict_get_filter_keys.
    by rewrite (dict_get_update weights additional_metrics metric Hnd).
  - rewrite keys_filter_keys.
    by rewrite (keys_dict_update_NoDup weights additional_metrics Hnd).
  - apply keys_normalize_weights.
Qed.

Lemma additional_weights_override_presets_witness :
  Scorer.available_weights Examples.three_players
    Examples.preset_weights Examples.additional_weights
  = [ ("Goal", Qc_of_Z 5); ("Assist", Qc_of_Z 2); ("Age", Qc_of_Z 1) ] ∧
  PyDict.dict_get "Goal"
    (Scorer.available_weights Examples.three_players
       Examples.preset_weights Examples.additional_weights)
  = Some (Qc_of_Z 5).
Proof.
  split; [apply (bool_decide_unpack _); vm_compute; exact I |].
  destruct (additional_weights_override_presets Examples.three_players
              Examples.preset_weights Examples.additional_weights) as [Hget _].
  - apply (bool_decide_unpack _). vm_compute. exact I.
  - rewrite (Hget "Goal"). reflexivity.
Defined.

(** With no negative weight, the composite score of a player is never
    negative and never above the score of a player with 100 on every
    weighted metric, which is the sum of 100 times each weight used,
    accumulated as the loop accumulates the score. *)
Theorem scores_stay_between_0_and_full_marks
    (df : Scorer.frame) (category : string)
    (weights additional_metrics : list (string * Qc))
    (result : list (nat * Scorer.scored_row)) (used : list (string * Qc)) :
  Scorer.ret (Scorer.calculate_category_score df category weights additional_metrics)
  = Scorer.Scored result used →
  (∀ kv, kv ∈ Scorer.available_weights df weights additional_metrics →
     (0 ≤ kv.2)%Qc) →
  ∀ k sr, (k, sr) ∈ result →
    (0 ≤ Scorer.score sr)%Qc ∧
    (Scorer.score sr
     ≤ foldl (fun acc kv => (acc + Scorer.hundred * kv.2)%Qc) 0%Qc used)%Qc.
Proof.
  intros (_ & -> & ->)%calculate_category_score_Scored Hnonneg k sr Hin.
  apply result_elem in Hin.
  destruct (scored_rows_elem _ _ sr Hin) as (i & r & Hr & _ & Hs & _).
  rewrite (weighted_scores_lookup _ _ i r Hr) in Hs. injection Hs as Hs.
  destruct (contributions_sum_range df i r
              (Scorer.normalize_weights
                 (Scorer.available_weights df weights additional_metrics)) Hr)
    as [H0 H1].
  { intros kv Hkv. split.
    - by apply (normalize_weights_columns df weights additional_metrics).
    - by apply (normalize_weights_nonneg
                  (Scorer.available_weights df weights additional_metrics)). }
  rewrite Hs in H0, H1. split; [done |].
  by rewrite foldl_full_marks, Qcplus_0_l.
Qed.

Lemma scores_stay_between_0_and_full_marks_witness :
  ∃ result used,
    Scorer.ret (Scorer.calculate_category_score Examples.three_players
                  "Attacking Score" Examples.equal_weights [])
    = Scorer.Scored result used ∧
    ∀ k sr, (k, sr) ∈ result →
      (0 ≤ Scorer.score sr)%Qc ∧
      (Scorer.score sr
       ≤ foldl (fun acc kv => (acc + Scorer.hundred * kv.2)%Qc) 0%Qc used)%Qc.
Proof.
  eexists _, _. split; [vm_compute; reflexivity |].
  apply (scores_stay_between_0_and_full_marks Examples.three_players
           "Attacking Score" Examples.equal_weights [] _ _ eq_refl).
  intros kv Hkv.
  assert (kv ∈ Examples.equal_weights) as Hin.
  { unfold Scorer.available_weights in Hkv.
    by apply list_elem_of_filter in Hkv as [_ Hkv]. }
  repeat (apply elem_of_cons in Hin as [->|Hin]; [vm_compute; discriminate |]).
  by apply elem_of_nil in Hin.
Defined.

(** The returned table is ranked 1, 2, ... from its first row, and its
    scores never increase down the table. *)
Theorem ranked_table_is_sorted
    (df : Scorer.frame) (category : string)
    (weights additional_metrics : list (string * Qc))
    (result : list (nat * Scorer.scored_row)) (used : list (string * Qc)) :
  Scorer.ret (Scorer.calculate_category_score df category weights additional_metrics)
  = Scorer.Scored result used →
  map fst result = seq 1 (length (Scorer.rows df)) ∧
  ∀ i j ri rj, (i < j)%nat →
    result !! i = Some ri → result !! j = Some rj →
    ri.1 = S i ∧ rj.1 = S j ∧ (Scorer.score rj.2 ≤ Scorer.score ri.2)%Qc.
Proof.
  intros (_ & -> & ->)%calculate_category_score_Scored. split.
  - rewrite with_rank_fst. f_equal.
    by rewrite sort_values_perm, length_scored_rows.
  - intros i j [ki ri] [kj rj] Hij [-> Hi]%with_rank_lookup [-> Hj]%with_rank_lookup.
    split_and!; [done | done |]. cbn [snd].
    exact (StronglySorted_lookup_le _ _ i j ri rj (sort_values_sorted _) Hij Hi Hj).
Qed.

Lemma ranked_table_is_sorted_witness :
  ∃ result used,
    Scorer.ret (Scorer.calculate_category_score Examples.three_players
                  "Attacking Score" Examples.goal_only [])
    = Scorer.Scored result used ∧
    map fst result = [1; 2; 3]%nat.
Proof.
  eexists _, _. split; [vm_compute; reflexivity |].
  exact (proj1 (ranked_table_is_sorted Examples.three_players
                  "Attacking Score" Examples.goal_only [] _ _ eq_refl)).
Defined.

(** The returned table holds every player of the frame exactly once: its
    rows, without the computed columns, are a permutation of the rows of
    the frame. *)
Theorem ranked_table_keeps_every_player
    (df : Scorer.frame) (category : string)
    (weights additional_metrics : list (string * Qc))
    (result : list (nat * Scorer.scored_row)) (used : list (string * Qc)) :
  Scorer.ret (Scorer.calculate_category_score df category weights additional_metrics)
  = Scorer.Scored result used →
  map (fun kr => Scorer.base kr.2) result ≡ₚ Scorer.rows df.
Proof.
  intros (_ & -> & ->)%calculate_category_score_Scored.
  rewrite <-(map_map snd Scorer.base), with_rank_snd.
  rewrite sort_values_perm. by rewrite scored_rows_base.
Qed.

Lemma ranked_table_keeps_every_player_witness :
  ∃ result used,
    Scorer.ret (Scorer.calculate_category_score Examples.three_players
                  "Attacking Score" Examples.goal_only [])
    = Scorer.Scored result used ∧
    map (fun kr => Scorer.base kr.2) result ≡ₚ Scorer.rows Examples.three_players.
Proof.
  eexists _, _. split; [vm_compute; reflexivity |].
  exact (ranked_table_keeps_every_player Examples.three_players
           "Attacking Score" Examples.goal_only [] _ _ eq_refl).
Defined.

(** Every percentile of the returned table is greater than 0 and at most
    100: no player, not even the last one, gets the percentile 0. *)
Theorem percentile_is_positive_and_at_most_100
    (df : Scorer.frame) (category : string)
    (weights additional_metrics : list (string * Qc))
    (result : list (nat * Scorer.scored_row)) (used : list (string * Qc)) :
  Scorer.ret (Scorer.calculate_category_score df category weights additional_metrics)
  = Scorer.Scored result used →
  ∀ k sr, (k, sr) ∈ result →
    (0 < Scorer.percentile sr)%Qc ∧ (Scorer.percentile sr ≤ Scorer.hundred)%Qc.
Proof.
  intros (_ & -> & ->)%calculate_category_score_Scored k sr Hin.
  apply result_elem in Hin.
  destruct (scored_rows_elem _ _ sr Hin) as (i & r & _ & _ & Hs & ->).
  apply rank_percent_range. by eapply list_elem_of_lookup_2.
Qed.

Lemma percentile_is_positive_and_at_most_100_witness :
  ∃ result used,
    Scorer.ret (Scorer.calculate_category_score Examples.three_players
                  "Attacking Score" Examples.goal_only [])
    = Scorer.Scored result used ∧
    ∀ k sr, (k, sr) ∈ result →
      (0 < Scorer.percentile sr)%Qc ∧ (Scorer.percentile sr ≤ Scorer.hundred)%Qc.
Proof.
  eexists _, _. split; [vm_compute; reflexivity |].
  exact (percentile_is_positive_and_at_most_100 Examples.three_players
           "Attacking Score" Examples.goal_only [] _ _ eq_refl).
Defined.

(** The percentile follows the score: of two rows of the returned table,
    the one with the higher score has the higher percentile, and rows with
    the same score have the same percentile. *)
Theorem percentile_follows_the_score
    (df : Scorer.frame) (category : string)
    (weights additional_metrics : list (string * Qc))
    (result : list (nat * Scorer.scored_row)) (used : list (string * Qc)) :
  Scorer.ret (Scorer.calculate_category_score df category weights additional_metrics)
  = Scorer.Scored result used →
  ∀ k1 r1 k2 r2, (k1, r1) ∈ result → (k2, r2) ∈ result →
    ((Scorer.score r1 < Scorer.score r2)%Qc →
     (Scorer.percentile r1 < Scorer.percentile r2)%Qc) ∧
    (Scorer.score r1 = Scorer.score r2 →
     Scorer.percentile r1 = Scorer.percentile r2).
Proof.
  intros (_ & -> & ->)%calculate_category_score_Scored k1 r1 k2 r2 H1 H2.
  apply result_elem in H1, H2.
  destruct (scored_rows_elem _ _ r1 H1) as (i1 & ? & _ & _ & Hs1 & ->).
  destruct (scored_rows_elem _ _ r2 H2) as (i2 & ? & _ & _ & Hs2 & ->).
  apply list_elem_of_lookup_2 in Hs1, Hs2. split.
  - intros Hlt. by apply rank_percent_lt.
  - by intros ->.
Qed.

Lemma percentile_follows_the_score_witness :
  ∃ result used,
    Scorer.ret (Scorer.calculate_category_score Examples.three_players
                  "Attacking Score" Examples.goal_only [])
    = Scorer.Scored result used ∧
    ∀ k1 r1 k2 r2, (k1, r1) ∈ result → (k2, r2) ∈ result →
      (Scorer.score r1 = Scorer.score r2 →
       Scorer.percentile r1 = Scorer.percentile r2).
Proof.
  eexists _, _. split; [vm_compute; reflexivity |].
  intros k1 r1 k2 r2 H1 H2.
  exact (proj2 (percentile_follows_the_score Examples.three_players
                  "Attacking Score" Examples.goal_only [] _ _ eq_refl
                  k1 r1 k2 r2 H1 H2)).
Defined.


(** The percentile shown in the breakdown of a player is the share of the
    column strictly below the raw value: for a positive metric it is at
    least 0, below 100, and below the rank percentile that the table
    computes for the same value in the same series; for a negative metric
    it is above 0 and at most 100. *)
Theorem breakdown_percentile_is_the_share_below
    (metric : string) (metric_values : list Qc) (raw_value : Qc) :
  raw_value ∈ metric_values →
  let p := Scorer.player_percentile metric metric_values raw_value in
  (Scorer.is_negative metric = false →
   (0 ≤ p)%Qc ∧ (p < Scorer.hundred)%Qc ∧
   (p < Scorer.average_rank raw_value metric_values
        / Scorer.Qc_of_nat (length metric_values) * Scorer.hundred)%Qc) ∧
  (Scorer.is_negative metric = true →
   (0 < p)%Qc ∧ (p ≤ Scorer.hundred)%Qc).
Proof.
  intros Hx p. subst p. unfold Scorer.player_percentile.
  rewrite (average_rank_value raw_value metric_values Hx), half_times.
  pose proof (count_lt_eq_le raw_value metric_values) as Hle.
  pose proof (count_eq_pos raw_value metric_values Hx) as Hk.
  assert (0 < Scorer.Qc_of_nat (length metric_values))%Qc as Hn
    by (apply Qc_of_nat_pos; lia).
  apply Qc_of_nat_le in Hle, Hk. rewrite Qc_of_nat_add in Hle.
  rewrite Qc_of_nat_1 in Hk.
  pose proof (Qc_of_nat_nonneg (Scorer.count_lt raw_value metric_values)) as Ha.
  revert Hle Hk Ha Hn.
  generalize (Scorer.Qc_of_nat (Scorer.count_lt raw_value metric_values)),
    (Scorer.Qc_of_nat (Scorer.count_eq raw_value metric_values)),
    (Scorer.Qc_of_nat (length metric_values)).
  intros a k n Hle Hk Ha Hn.
  assert (a < n)%Qc as Han by qc_lin.
  assert (a < a + (k + 1) * Q2Qc (1 # 2))%Qc as Hrank by qc_lin.
  pose proof (Qcdiv_le_mono _ _ n Hn Ha) as H0.
  pose proof (Qcdiv_lt_mono _ _ n Hn Han) as H1.
  pose proof (Qcdiv_lt_mono _ _ n Hn Hrank) as H2.
  rewrite Qcdiv_zero in H0. rewrite (Qcdiv_same n Hn) in H1.
  revert H0 H1 H2.
  generalize (a / n)%Qc, ((a + (k + 1) * Q2Qc (1 # 2)) / n)%Qc.
  intros t t' H0 H1 H2. unfold Scorer.hundred.
  split; intros ->; split_and!; qc_lin.
Qed.

Lemma breakdown_percentile_is_the_share_below_witness :
  (0 ≤ Scorer.player_percentile "Goal" [Qc_of_Z 1; Qc_of_Z 2; Qc_of_Z 3] (Qc_of_Z 2))%Qc ∧
  (0 < Scorer.player_percentile "Foul" [Qc_of_Z 1; Qc_of_Z 2; Qc_of_Z 3] (Qc_of_Z 2))%Qc.
Proof.
  split.
  - destruct (breakdown_percentile_is_the_share_below "Goal"
                [Qc_of_Z 1; Qc_of_Z 2; Qc_of_Z 3] (Qc_of_Z 2)) as [Hpos _].
    + right. left.
    + by destruct (Hpos eq_refl) as (H0 & _).
  - destruct (breakdown_percentile_is_the_share_below "Foul"
                [Qc_of_Z 1; Qc_of_Z 2; Qc_of_Z 3] (Qc_of_Z 2)) as [_ Hneg].
    + right. left.
    + by destruct (Hneg eq_refl) as (H0 & _).
Defined.

(** ** Strings: case, white space and digits *)

Section StringFacts.
Import PyStr.

Local Open Scope string_scope.

Lemma is_space_upper_char c : is_space (upper_char c) = is_space c.
Proof. by destruct c as [[] [] [] [] [] [] [] []]. Qed.

Lemma upper_char_idemp c : upper_char (upper_char c) = upper_char c.
Proof. by destruct c as [[] [] [] [] [] [] [] []]. Qed.

Lemma upper_lower_char c : upper_char (lower_char c) = upper_char c.
Proof. by destruct c as [[] [] [] [] [] [] [] []]. Qed.

Lemma lower_upper_char c : lower_char (upper_char c) = lower_char c.
Proof. by destruct c as [[] [] [] [] [] [] [] []]. Qed.

Lemma upper_idemp s : upper (upper s) = upper s.
Proof. induction s as [|c s IH]; cbn [upper]; [done |]. by rewrite upper_char_idemp, IH. Qed.

Lemma upper_lower s : upper (lower s) = upper s.
Proof. induction s as [|c s IH]; cbn [upper lower]; [done |]. by rewrite upper_lower_char, IH. Qed.

Lemma lower_upper s : lower (upper s) = lower s.
Proof. induction s as [|c s IH]; cbn [upper lower]; [done |]. by rewrite lower_upper_char, IH. Qed.

Lemma upper_eq_empty s : upper s = "" ↔ s = "".
Proof. by destruct s. Qed.

Lemma upper_app a b : upper (a +:+ b) = upper a +:+ upper b.
Proof.
  induction a as [|c a IH]; [done |].
  change (String c a +:+ b) with (String c (a +:+ b)).
  cbn [upper]. rewrite IH. done.
Qed.

Lemma lower_app a b : lower (a +:+ b) = lower a +:+ lower b.
Proof.
  induction a as [|c a IH]; [done |].
  change (String c a +:+ b) with (String c (a +:+ b)).
  cbn [lower]. rewrite IH. done.
Qed.

(** *** Stripping *)

Lemma upper_lstrip s : upper (lstrip s) = lstrip (upper s).
Proof.
  induction s as [|c s IH]; cbn [lstrip upper]; [done |].
  rewrite is_space_upper_char. by destruct (is_space c).
Qed.

Lemma upper_rstrip s : upper (rstrip s) = rstrip (upper s).
Proof.
  induction s as [|c s IH]; cbn [rstrip upper]; [done |].
  rewrite <-IH, is_space_upper_char.
  destruct (rstrip s); cbn [upper]; [by destruct (is_space c) | done].
Qed.

Lemma upper_strip s : upper (strip s) = strip (upper s).
Proof. unfold strip. by rewrite upper_rstrip, upper_lstrip. Qed.

Lemma lstrip_head s :
  lstrip s = "" ∨ ∃ c t, lstrip s = String c t ∧ is_space c = false.
Proof.
  induction s as [|c s IH]; cbn [lstrip]; [by left |].
  destruct (is_space c) eqn:Hc; [done |]. right. by exists c, s.
Qed.

Lemma lstrip_fixed c t : is_space c = false → lstrip (String c t) = String c t.
Proof. intros Hc. cbn [lstrip]. by rewrite Hc. Qed.

Lemma rstrip_cons c x :
  rstrip (String c x)
  = match rstrip x with
    | "" => if is_space c then "" else String c ""
    | String d r => String c (String d r)
    end.
Proof. cbn [rstrip]. by destruct (rstrip x). Qed.

Lemma rstrip_idemp s : rstrip (rstrip s) = rstrip s.
Proof.
  induction s as [|c s IH]; [done |]. rewrite rstrip_cons.
  destruct (rstrip s) as [|d r] eqn:Hr.
  - destruct (is_space c) eqn:Hc; [done |]. rewrite rstrip_cons. cbn [rstrip].
    by rewrite Hc.
  - rewrite rstrip_cons, IH. done.
Qed.

(** A string without white space at its end, seen from its head. *)
Lemma rstrip_fixed_cons c x :
  rstrip (String c x) = String c x →
  (x = "" ∧ is_space c = false) ∨ (x ≠ "" ∧ rstrip x = x).
Proof.
  rewrite rstrip_cons. destruct (rstrip x) as [|d r] eqn:Hr.
  - destruct (is_space c); [done |]. intros [= <-]. by left.
  - intros [= <-]. by right.
Qed.

Lemma rstrip_head c x :
  is_space c = false → ∃ t, rstrip (String c x) = String c t.
Proof.
  intros Hc. rewrite rstrip_cons. destruct (rstrip x); [|by eexists].
  rewrite Hc. by eexists.
Qed.

Lemma strip_head s :
  strip s = "" ∨ ∃ c t, strip s = String c t ∧ is_space c = false.
Proof.
  unfold strip. destruct (lstrip_head s) as [->|(c & t & -> & Hc)]; [by left |].
  right. destruct (rstrip_head c t Hc) as [t' ->]. by exists c, t'.
Qed.

Lemma lstrip_strip s : lstrip (strip s) = strip s.
Proof.
  destruct (strip_head s) as [->|(c & t & -> & Hc)]; [done |].
  by apply lstrip_fixed.
Qed.

Lemma rstrip_strip s : rstrip (strip s) = strip s.
Proof. unfold strip. apply rstrip_idemp. Qed.

Lemma strip_idemp s : strip (strip s) = strip s.
Proof. unfold strip at 1. by rewrite lstrip_strip, rstrip_strip. Qed.

(** *** Collapsing white space *)

Lemma upper_sub_ws b s : upper (sub_ws b s) = sub_ws b (upper s).
Proof.
  revert b. induction s as [|c s IH]; intros b; cbn [sub_ws upper]; [done |].
  rewrite is_space_upper_char. destruct (is_space c); [destruct b|]; cbn [upper].
  - apply IH.
  - by rewrite IH.
  - by rewrite IH.
Qed.

Lemma sub_ws_idemp b s : sub_ws b (sub_ws b s) = sub_ws b s.
Proof.
  revert b. induction s as [|c s IH]; intros b; cbn [sub_ws]; [done |].
  destruct (is_space c) eqn:Hc; [destruct b|].
  - apply IH.
  - cbn [sub_ws]. change (is_space " ") with true. cbn iota. by rewrite IH.
  - cbn [sub_ws]. rewrite Hc. by rewrite IH.
Qed.

Lemma sub_ws_nonempty b x : rstrip x = x → x ≠ "" → sub_ws b x ≠ "".
Proof.
  revert b. induction x as [|c x IH]; intros b Hfix Hne; [done |].
  cbn [sub_ws]. destruct (is_space c) eqn:Hc; [destruct b|]; try done.
  destruct (rstrip_fixed_cons c x Hfix) as [[_ Hc']|[Hx Hfix']].
  - by rewrite Hc in Hc'.
  - by apply IH.
Qed.

Lemma rstrip_sub_ws b x : rstrip x = x → rstrip (sub_ws b x) = sub_ws b x.
Proof.
  revert b. induction x as [|c x IH]; intros b Hfix; [done |].
  destruct (rstrip_fixed_cons c x Hfix) as [[-> Hc]|[Hx Hfix']].
  - cbn [sub_ws]. rewrite Hc. cbn [sub_ws rstrip]. by rewrite Hc.
  - cbn [sub_ws].
    assert (∀ e b', rstrip (String e (sub_ws b' x)) = String e (sub_ws b' x)) as Hcons.
    { intros e b'. rewrite rstrip_cons, (IH b' Hfix').
      pose proof (sub_ws_nonempty b' x Hfix' Hx) as Hne.
      by destruct (sub_ws b' x). }
    destruct (is_space c); [destruct b|]; [by apply IH | apply Hcons | apply Hcons].
Qed.

Lemma lstrip_sub_ws x :
  (x = "" ∨ ∃ c t, x = String c t ∧ is_space c = false) →
  lstrip (sub_ws false x) = sub_ws false x.
Proof.
  intros [->|(c & t & -> & Hc)]; [done |].
  cbn [sub_ws]. rewrite Hc. by apply lstrip_fixed.
Qed.

(** The result of stripping and collapsing is unchanged by either step. *)
Lemma strip_sub_ws_strip s :
  strip (sub_ws false (strip s)) = sub_ws false (strip s).
Proof.
  unfold strip at 1. rewrite (lstrip_sub_ws (strip s)) by apply strip_head.
  apply rstrip_sub_ws, rstrip_strip.
Qed.

(** *** Substrings *)

Lemma prefix_empty s : String.prefix "" s = true.
Proof. by destruct s. Qed.

Lemma prefix_app x s t : String.prefix x s = true → String.prefix x (s +:+ t) = true.
Proof.
  revert s. induction x as [|a x IH]; intros s; [intros _; apply prefix_empty |].
  destruct s as [|b s]; [done |].
  change (String b s +:+ t) with (String b (s +:+ t)).
  cbn [String.prefix]. destruct (ascii_dec a b); [apply IH | done].
Qed.

Lemma contains_app_r x s t : contains x s = true → contains x (s +:+ t) = true.
Proof.
  induction s as [|b s IH]; cbn [contains].
  - rewrite orb_false_r. intros Hp. destruct x; [|done].
    destruct t; cbn; by rewrite ?prefix_empty.
  - intros [Hp|Hc]%orb_true_iff.
    + change (String b s +:+ t) with (String b (s +:+ t)).
      cbn [contains]. apply orb_true_iff. left.
      by apply (prefix_app x (String b s) t).
    + change (String b s +:+ t) with (String b (s +:+ t)).
      cbn [contains]. apply orb_true_iff. right. by apply IH.
Qed.

Lemma contains_app_l x s t : contains x s = true → contains x (t +:+ s) = true.
Proof.
  intros Hc. induction t as [|b t IH]; [done |].
  change (String b t +:+ s) with (String b (t +:+ s)).
  cbn [contains]. apply orb_true_iff. by right.
Qed.

Lemma contains_refl s : contains s s = true.
Proof.
  assert (String.prefix s s = true) as Hp.
  { induction s as [|a s IH]; [done |]. cbn. by destruct (ascii_dec a a). }
  destruct s; cbn [contains]; by rewrite Hp.
Qed.

(** *** The ampersand and [replace] *)

Lemma contains_amp_cons c s :
  contains "&" (String c s) = (if ascii_dec "&" c then true else false) || contains "&" s.
Proof.
  cbn [contains String.prefix]. destruct (ascii_dec "&" c); [|done].
  by rewrite prefix_empty.
Qed.

Lemma replace_without_amp old' new s :
  contains "&" s = false → replace_from 0 (String "&" old') new s = s.
Proof.
  induction s as [|c s IH]; [done |]. rewrite contains_amp_cons.
  intros [Hc Hs]%orb_false_iff. cbn [replace_from String.prefix].
  destruct (ascii_dec "&" c); [done |]. by rewrite IH.
Qed.

Lemma lstrip_without_amp s : contains "&" s = false → contains "&" (lstrip s) = false.
Proof.
  induction s as [|c s IH]; [done |]. cbn [lstrip].
  destruct (is_space c); [|done]. rewrite contains_amp_cons.
  intros [_ Hs]%orb_false_iff. by apply IH.
Qed.

Lemma rstrip_without_amp s : contains "&" s = false → contains "&" (rstrip s) = false.
Proof.
  induction s as [|c s IH]; [done |]. rewrite contains_amp_cons, rstrip_cons.
  intros [Hc Hs]%orb_false_iff. specialize (IH Hs).
  destruct (rstrip s) as [|d r].
  - destruct (is_space c); [done |]. by rewrite contains_amp_cons, Hc.
  - by rewrite contains_amp_cons, Hc, IH.
Qed.

Lemma sub_ws_without_amp b s :
  contains "&" s = false → contains "&" (sub_ws b s) = false.
Proof.
  revert b. induction s as [|c s IH]; intros b; [done |].
  rewrite contains_amp_cons. intros [Hc Hs]%orb_false_iff. cbn [sub_ws].
  destruct (is_space c); [destruct b|].
  - by apply IH.
  - rewrite contains_amp_cons. by rewrite IH.
  - rewrite contains_amp_cons, Hc. by rewrite IH.
Qed.

(** *** Digits *)

Lemma take_drop_digits s : take_digits s +:+ drop_digits s = s.
Proof.
  induction s as [|c s IH]; [done |]. cbn [take_digits drop_digits].
  destruct (is_digit c); [|done].
  change (String c (take_digits s) +:+ drop_digits s)
    with (String c (take_digits s +:+ drop_digits s)).
  by rewrite IH.
Qed.

Lemma take_digits_idemp s : take_digits (take_digits s) = take_digits s.
Proof.
  induction s as [|c s IH]; [done |]. cbn [take_digits].
  destruct (is_digit c) eqn:Hc; [|done]. cbn [take_digits]. by rewrite Hc, IH.
Qed.

Lemma take_digits_drop s : take_digits (drop_digits s) = "".
Proof.
  induction s as [|c s IH]; [done |]. cbn [drop_digits].
  destruct (is_digit c) eqn:Hc; [done |]. cbn [take_digits]. by rewrite Hc.
Qed.

Lemma app_assoc_string (a b c : string) : (a +:+ b) +:+ c = a +:+ (b +:+ c).
Proof.
  induction a as [|x a IH]; [done |].
  change ((String x a +:+ b) +:+ c) with (String x ((a +:+ b) +:+ c)).
  by rewrite IH.
Qed.

End StringFacts.

(** ** Cleaning names, and the scraper's helpers *)

Section CleanFacts.
Import PyStr Combiner Scraper.

Local Open Scope string_scope.

Lemma clean_name_unfold s : clean_name s = sub_ws false (upper (strip s)).
Proof. unfold clean_name. by destruct (decide (s = "")) as [->|]. Qed.

Lemma clean_name_alt s : clean_name s = sub_ws false (strip (upper s)).
Proof. by rewrite clean_name_unfold, upper_strip. Qed.

Lemma clean_name_fixed s :
  strip (clean_name s) = clean_name s ∧
  upper (clean_name s) = clean_name s ∧
  sub_ws false (clean_name s) = clean_name s.
Proof.
  rewrite clean_name_alt. split_and!.
  - apply strip_sub_ws_strip.
  - by rewrite upper_sub_ws, upper_strip, upper_idemp.
  - apply sub_ws_idemp.
Qed.

Lemma clean_name_upper s : clean_name (upper s) = clean_name s.
Proof. by rewrite !clean_name_alt, upper_idemp. Qed.

Lemma clean_name_lower s : clean_name (lower s) = clean_name s.
Proof. by rewrite !clean_name_alt, upper_lower. Qed.

Lemma clean_name_strip s : clean_name (strip s) = clean_name s.
Proof. by rewrite !clean_name_unfold, strip_idemp. Qed.

Lemma clean_name_same_upper k s : upper k = upper s → clean_name k = clean_name s.
Proof. intros Heq. by rewrite <-(clean_name_upper k), Heq, clean_name_upper. Qed.

Lemma clean_text_plain s :
  contains "&" s = false → clean_text s = sub_ws false (strip s).
Proof.
  intros Hs. unfold clean_text. destruct (decide (s = "")) as [->|_]; [done |].
  assert (contains "&" (sub_ws false (strip s)) = false) as Hc.
  { apply sub_ws_without_amp. unfold strip.
    by apply rstrip_without_amp, lstrip_without_amp. }
  unfold replace.
  rewrite (replace_without_amp "nbsp;" " " _ Hc).
  by rewrite (replace_without_amp "amp;" "&" _ Hc).
Qed.

(** *** [find] *)

Lemma find_None_inv {A} (f : A → bool) l x : find f l = None → x ∈ l → f x = false.
Proof.
  induction l as [|a l IH]; cbn [find]; [by intros _ ?%elem_of_nil |].
  destruct (f a) eqn:Ha; [done |].
  intros Hnone [->|Hin]%elem_of_cons; [done | by apply IH].
Qed.

Lemma find_Some_elem {A} (f : A → bool) l x :
  find f l = Some x → x ∈ l ∧ f x = true.
Proof.
  intros (l1 & l2 & -> & Hx & _)%find_Some_first. split; [|done].
  apply elem_of_app. right. left.
Qed.

(** *** Numbers *)

Lemma first_number_None s :
  first_number s = None ↔ ∀ c, c ∈ String.list_ascii_of_string s → is_digit c = false.
Proof.
  induction s as [|c s IH]; cbn [first_number String.list_ascii_of_string].
  - split; [by intros _ c ?%elem_of_nil | done].
  - destruct (is_digit c) eqn:Hc.
    + split; [done |]. intros Hall. rewrite (Hall c) in Hc by left. done.
    + rewrite IH. split.
      * intros Hall d [->|Hd]%elem_of_cons; [done | by apply Hall].
      * intros Hall d Hd. apply Hall. by right.
Qed.

Lemma first_number_app pre s :
  first_number pre = None → first_number (pre +:+ s) = first_number s.
Proof.
  induction pre as [|c pre IH]; [done |].
  change (String c pre +:+ s) with (String c (pre +:+ s)).
  cbn [first_number]. destruct (is_digit c); [done |]. apply IH.
Qed.

Lemma first_number_Some s n :
  first_number s = Some n →
  ∃ pre c rest,
    s = pre +:+ String c rest ∧ first_number pre = None ∧
    is_digit c = true ∧ n = number_at (String c rest).
Proof.
  induction s as [|c s IH]; cbn [first_number]; [done |].
  destruct (is_digit c) eqn:Hc.
  - intros [= <-]. by exists "", c, s.
  - intros (pre & d & rest & -> & Hpre & Hd & ->)%IH.
    exists (String c pre), d, rest. split_and!; try done.
    cbn [first_number]. by rewrite Hc.
Qed.

(** The shape of the match at a digit: digits, or digits, a point and
    digits; what follows the match does not start with a digit. *)
Lemma number_at_shape c rest :
  is_digit c = true →
  ∃ post,
    String c rest = number_at (String c rest) +:+ post ∧
    take_digits post = "" ∧
    (number_at (String c rest) = take_digits (String c rest) ∨
     ∃ frac, frac ≠ "" ∧ take_digits frac = frac ∧
       number_at (String c rest)
       = take_digits (String c rest) +:+ String "." frac).
Proof.
  intros Hc. unfold number_at.
  pose proof (take_drop_digits (String c rest)) as Hsplit.
  destruct (drop_digits (String c rest)) as [|d r] eqn:Hdrop.
  { exists "". split_and!; [by rewrite Hsplit at 1 | done | by left]. }
  assert (take_digits (String d r) = "") as Hpost
    by (rewrite <-Hdrop; apply take_digits_drop).
  destruct (decide (d = "."%char)) as [->|Hd].
  - destruct (take_digits r) as [|e frac] eqn:Hfrac.
    + exists (String "." r). split_and!; [by rewrite Hsplit at 1 | done | by left].
    + exists (drop_digits r). split_and!.
      * rewrite <-Hsplit at 1. rewrite app_assoc_string. f_equal.
        change (String "." (String e frac) +:+ drop_digits r)
          with (String "." (String e frac +:+ drop_digits r)).
        by rewrite <-Hfrac, take_drop_digits.
      * apply take_digits_drop.
      * right. exists (String e frac). split_and!; [done | | done].
        rewrite <-Hfrac. apply take_digits_idemp.
  - exists (String d r). split_and!; [| done |].
    + rewrite <-Hsplit at 1.
      destruct d as [[] [] [] [] [] [] [] []]; try done.
    + left. destruct d as [[] [] [] [] [] [] [] []]; try done.
Qed.

Lemma take_digits_nonempty c rest :
  is_digit c = true → take_digits (String c rest) ≠ "".
Proof. intros Hc. cbn [take_digits]. by rewrite Hc. Qed.

(** *** Team names *)

Lemma existsb_contains_app (a s b : string) (l : list string) :
  existsb (fun x => contains x s) l = true →
  existsb (fun x => contains x ((a +:+ s) +:+ b)) l = true.
Proof.
  induction l as [|x l IH]; cbn [existsb]; [done |].
  intros [Hx|Hl]%orb_true_iff; apply orb_true_iff.
  - left. by apply contains_app_r, contains_app_l.
  - right. by apply IH.
Qed.

End CleanFacts.

(** [clean_name] is idempotent: its result has no white space at either
    end, is in upper case and has single spaces only, so cleaning it again
    changes nothing. *)
Theorem clean_name_is_idempotent (s : string) :
  Combiner.clean_name (Combiner.clean_name s) = Combiner.clean_name s ∧
  PyStr.strip (Combiner.clean_name s) = Combiner.clean_name s ∧
  PyStr.upper (Combiner.clean_name s) = Combiner.clean_name s ∧
  PyStr.sub_ws false (Combiner.clean_name s) = Combiner.clean_name s.
Proof.
  destruct (clean_name_fixed s) as (Hstrip & Hupper & Hsub).
  split_and!; [| done | done | done].
  rewrite (clean_name_unfold (Combiner.clean_name s)).
  by rewrite Hstrip, Hupper, Hsub.
Qed.

(** [clean_name] ignores the case of ASCII letters and the white space
    around the name: two names with the same upper-case form clean to the
    same string. *)
Theorem clean_name_ignores_letter_case (s k : string) :
  Combiner.clean_name (PyStr.upper s) = Combiner.clean_name s ∧
  Combiner.clean_name (PyStr.lower s) = Combiner.clean_name s ∧
  Combiner.clean_name (PyStr.strip s) = Combiner.clean_name s ∧
  (PyStr.upper k = PyStr.upper s → Combiner.clean_name k = Combiner.clean_name s).
Proof.
  split_and!.
  - apply clean_name_upper.
  - apply clean_name_lower.
  - apply clean_name_strip.
  - apply clean_name_same_upper.
Qed.

(** A record of the player's team whose key is the full name or the
    display name of the player in another letter case is always matched:
    the cascade returns a record, with a tier other than [no_match]. *)
Theorem find_player_stats_ignores_letter_case
    (d : list (string * gmap string pyval)) (p : Combiner.player)
    (k : string) (stats : gmap string pyval) :
  (k, stats) ∈ d →
  Combiner.get stats "Team" = PStr (Combiner.team_name p) →
  PyStr.upper k = PyStr.upper (Combiner.fullName p) ∨
  PyStr.upper k = PyStr.upper (Combiner.name p) →
  ∃ found t,
    Combiner.find_player_stats d p = (Some found, t) ∧ t ≠ Combiner.no_match ∧
    Combiner.get found "Team" = PStr (Combiner.team_name p).
Proof.
  intros Hin Hteam Hname.
  destruct (Combiner.find_player_stats d p) as [[found|] t] eqn:Hfind.
  - exists found, t. destruct (find_player_stats_team _ _ _ _ Hfind) as [? ?].
    by split_and!.
  - destruct (find_player_stats_None _ _ _ Hfind) as [_ Hnone].
    exfalso. apply (Hnone (k, stats) Hin). split; [done |]. cbn [fst].
    destruct Hname as [H|H]; [left | right]; by apply clean_name_same_upper.
Qed.

Lemma find_player_stats_ignores_letter_case_witness :
  ∃ found t,
    Combiner.find_player_stats Examples.smith_pool Examples.smith_target
    = (Some found, t) ∧ t ≠ Combiner.no_match.
Proof.
  destruct (find_player_stats_ignores_letter_case Examples.smith_pool
              Examples.smith_target "john smith" Examples.smith_full)
    as (found & t & Hfind & Ht & _).
  - left.
  - reflexivity.
  - left. reflexivity.
  - by exists found, t.
Defined.

(** On a text without an ampersand [clean_text] only strips and collapses
    white space: it is idempotent there, and its upper-case form is what
    [clean_name] gives, so the resolver without team validation and the
    team-validated cascade compare names cleaned in the same way. *)
Theorem clean_text_without_ampersand (text : string) :
  PyStr.contains "&" text = false →
  Scraper.clean_text text = PyStr.sub_ws false (PyStr.strip text) ∧
  Scraper.clean_text (Scraper.clean_text text) = Scraper.clean_text text ∧
  PyStr.upper (Scraper.clean_text text) = Combiner.clean_name text.
Proof.
  intros Hamp. rewrite (clean_text_plain text Hamp).
  assert (PyStr.contains "&" (PyStr.sub_ws false (PyStr.strip text)) = false) as Hc.
  { apply sub_ws_without_amp. unfold PyStr.strip.
    by apply rstrip_without_amp, lstrip_without_amp. }
  split_and!; [done | |].
  - rewrite (clean_text_plain _ Hc). by rewrite strip_sub_ws_strip, sub_ws_idemp.
  - by rewrite upper_sub_ws, clean_name_unfold.
Qed.

Lemma clean_text_without_ampersand_witness :
  Scraper.clean_text "  Budi   Santoso " = "Budi Santoso" ∧
  PyStr.upper (Scraper.clean_text "  Budi   Santoso ")
  = Combiner.clean_name "  Budi   Santoso ".
Proof.
  destruct (clean_text_without_ampersand "  Budi   Santoso ") as (H1 & _ & H3).
  - reflexivity.
  - split; [|exact H3]. rewrite H1. reflexivity.
Defined.

(** The verdict of the resolver without team validation. A player it
    returns is a player of the pool that passes one of its four tests on
    the cleaned, upper-cased scraped name; it returns nothing exactly when
    no player of the pool passes a containment test (a player that passes
    an equality test passes the containment test too). *)
Theorem match_player_by_fullname_verdict
    (scraped_name : string) (all_players : list Combiner.player) :
  let s := PyStr.upper (Scraper.clean_text scraped_name) in
  match Scraper.match_player_by_fullname scraped_name all_players with
  | Some p =>
      p ∈ all_players ∧
      (PyStr.upper (Combiner.fullName p) = s ∨
       PyStr.upper (Combiner.name p) = s ∨
       Scraper.either_contains s (PyStr.upper (Combiner.fullName p)) = true ∨
       Scraper.either_contains s (PyStr.upper (Combiner.name p)) = true)
  | None =>
      ∀ q, q ∈ all_players →
        Scraper.either_contains s (PyStr.upper (Combiner.fullName q)) = false ∧
        Scraper.either_contains s (PyStr.upper (Combiner.name q)) = false ∧
        PyStr.upper (Combiner.fullName q) ≠ s ∧
        PyStr.upper (Combiner.name q) ≠ s
  end.
Proof.
  intros s. unfold Scraper.match_player_by_fullname. fold s.
  destruct (find (fun p => bool_decide (PyStr.upper (Combiner.fullName p) = s))
              all_players) as [p|] eqn:H1.
  { apply find_Some_elem in H1 as [Hin Hp]. split; [done |]. left.
    by apply bool_decide_eq_true in Hp. }
  destruct (find (fun p => bool_decide (PyStr.upper (Combiner.name p) = s))
              all_players) as [p|] eqn:H2.
  { apply find_Some_elem in H2 as [Hin Hp]. split; [done |]. right. left.
    by apply bool_decide_eq_true in Hp. }
  destruct (find (fun p => Scraper.either_contains s (PyStr.upper (Combiner.fullName p)))
              all_players) as [p|] eqn:H3.
  { apply find_Some_elem in H3 as [Hin Hp]. split; [done |]. right. right. by left. }
  destruct (find (fun p => Scraper.either_contains s (PyStr.upper (Combiner.name p)))
              all_players) as [p|] eqn:H4.
  { apply find_Some_elem in H4 as [Hin Hp]. split; [done |]. right. right. by right. }
  intros q Hq.
  pose proof (find_None_inv _ _ q H1 Hq) as E1.
  pose proof (find_None_inv _ _ q H2 Hq) as E2.
  pose proof (find_None_inv _ _ q H3 Hq) as E3.
  pose proof (find_None_inv _ _ q H4 Hq) as E4.
  cbn beta in *. split_and!; [done | done | |].
  - by apply bool_decide_eq_false in E1.
  - by apply bool_decide_eq_false in E2.
Qed.

(** A scraped name that cleans to the empty string (an empty or blank
    cell) is contained in every name: when no player of a non-empty pool
    has an empty full name or display name, the resolver returns the first
    player of the pool. *)
Theorem blank_scraped_name_matches_first_player
    (scraped_name : string) (p : Combiner.player) (rest : list Combiner.player) :
  Scraper.clean_text scraped_name = "" →
  (∀ q, q ∈ p :: rest → Combiner.fullName q ≠ "" ∧ Combiner.name q ≠ "") →
  Scraper.match_player_by_fullname scraped_name (p :: rest) = Some p.
Proof.
  intros Hblank Hnames. unfold Scraper.match_player_by_fullname.
  rewrite Hblank. cbn [PyStr.upper].
  rewrite (find_None_forall
             (fun q => bool_decide (PyStr.upper (Combiner.fullName q) = ""))).
  2:{ intros q Hq. apply bool_decide_eq_false. rewrite upper_eq_empty.
      by apply Hnames. }
  rewrite (find_None_forall
             (fun q => bool_decide (PyStr.upper (Combiner.name q) = ""))).
  2:{ intros q Hq. apply bool_decide_eq_false. rewrite upper_eq_empty.
      by apply Hnames. }
  cbn [find]. unfold Scraper.either_contains at 1.
  by rewrite contains_empty.
Qed.

Lemma blank_scraped_name_matches_first_player_witness :
  Scraper.match_player_by_fullname "   "
    [Examples.smith_player; Examples.smith_target]
  = Some Examples.smith_player.
Proof.
  apply (blank_scraped_name_matches_first_player "   "
           Examples.smith_player [Examples.smith_target]).
  - reflexivity.
  - intros q Hq.
    repeat (apply elem_of_cons in Hq as [->|Hq]; [by split |]).
    by apply elem_of_nil in Hq.
Defined.

(** [extract_number] returns nothing exactly when the text has no digit,
    and what precedes the first digit, a sign for instance, is skipped. *)
Theorem extract_number_skips_to_the_first_digit (text pre : string) :
  (Scraper.extract_number text = None ↔
   ∀ c, c ∈ String.list_ascii_of_string text → PyStr.is_digit c = false) ∧
  ((∀ c, c ∈ String.list_ascii_of_string pre → PyStr.is_digit c = false) →
   Scraper.extract_number (pre +:+ text) = Scraper.extract_number text).
Proof.
  assert (∀ t, Scraper.extract_number t = Scraper.first_number t) as Hex.
  { intros t. unfold Scraper.extract_number. by destruct (decide (t = "")) as [->|]. }
  split.
  - rewrite Hex. apply first_number_None.
  - intros Hpre. rewrite !Hex. by apply first_number_app, first_number_None.
Qed.

(** The number [extract_number] returns is the first run of digits of the
    text, followed by a point and the digits after it when there are some;
    what precedes it in the text has no digit and what follows it does
    not start with a digit. *)
Theorem extract_number_is_the_first_number (text n : string) :
  Scraper.extract_number text = Some n →
  ∃ pre post digits,
    text = pre +:+ (n +:+ post) ∧
    (∀ c, c ∈ String.list_ascii_of_string pre → PyStr.is_digit c = false) ∧
    PyStr.take_digits post = "" ∧
    digits ≠ "" ∧ PyStr.take_digits digits = digits ∧
    (n = digits ∨
     ∃ frac, frac ≠ "" ∧ PyStr.take_digits frac = frac ∧
       n = digits +:+ String "." frac).
Proof.
  unfold Scraper.extract_number. destruct (decide (text = "")); [done |].
  intros (pre & c & rest & -> & Hpre & Hc & ->)%first_number_Some.
  destruct (number_at_shape c rest Hc) as (post & Hsplit & Hpost & Hshape).
  exists pre, post, (PyStr.take_digits (String c rest)).
  split_and!; [by rewrite <-Hsplit | by apply first_number_None | done | | | done].
  - by apply take_digits_nonempty.
  - apply take_digits_idemp.
Qed.

Lemma extract_number_is_the_first_number_witness :
  ∃ pre post digits,
    "Gol: -12.50%" = pre +:+ ("12.50" +:+ post) ∧
    PyStr.take_digits post = "" ∧ digits ≠ "".
Proof.
  destruct (extract_number_is_the_first_number "Gol: -12.50%" "12.50")
    as (pre & post & digits & Hsplit & _ & Hpost & Hdigits & _).
  - reflexivity.
  - by exists pre, post, digits.
Defined.

(** A text that contains a text that looks like a team name looks like a
    team name too, and the test ignores the case of ASCII letters. *)
Theorem looks_like_team_name_of_longer_text (a text b : string) :
  (Scraper.looks_like_team_name text = true →
   Scraper.looks_like_team_name ((a +:+ text) +:+ b) = true) ∧
  Scraper.looks_like_team_name (PyStr.upper text)
  = Scraper.looks_like_team_name text.
Proof.
  unfold Scraper.looks_like_team_name. split.
  - rewrite !lower_app. apply existsb_contains_app.
  - by rewrite lower_upper.
Qed.

(** ** Rounding *)

Section Rounding.
Import PrimFloat.

#[local] Set Warnings "-inexact-float".
Local Open Scope float_scope.

(** On binary64 numbers the rounding of the divisions and products is
    visible. With the slider weights 0.05 and 0.15 the weights used are
    0.25 and 0.7499999999999999, whose sum is below 1; with the weights
    0.05 and 0.25 the player who holds the maximum of both columns scores
    100.00000000000001, above 100; and multiplying the weights 0.05 and
    0.25 by 3 changes the scores of two of the three players. *)
Theorem binary64_rounding_is_visible :
  let weights m1 m2 w1 w2 :=
    Binary64.normalize_weights (Binary64Examples.slider_weights m1 m2 w1 w2) in
  (weights "Goal" "Assist" 0.05 0.15
   = [ ("Goal", 0.25); ("Assist", 0.7499999999999999) ] ∧
   ltb (Binary64.sum_values (weights "Goal" "Assist" 0.05 0.15)) 1 = true) ∧
  (Binary64.weighted_scores Binary64Examples.binary64_players
     (weights "Goal" "Assist" 0.05 0.25)
   = [ 0; 50.00000000000001; 100.00000000000001 ] ∧
   ltb 100 100.00000000000001 = true) ∧
  (Binary64.weighted_scores Binary64Examples.binary64_players
     (weights "Goal" "Tackle" 0.05 0.25)
   = [ 83.33333333333334; 50.00000000000001; 16.666666666666668 ] ∧
   Binary64.weighted_scores Binary64Examples.binary64_players
     (weights "Goal" "Tackle" (3 * 0.05) (3 * 0.25))
   = [ 83.33333333333333; 50; 16.666666666666668 ] ∧
   ltb 83.33333333333333 83.33333333333334 = true).
Proof.
  cbv zeta. split_and!; vm_compute; reflexivity.
Qed.

End Rounding.
